(** * A shallow embedding of the orchestration logic of the CLI coding agents

    Sources embedded here:
    - [src/src/agents/reviewer_agent.py]: [_determine_next_action],
      [_perform_llm_review], [_create_fallback_review], [_post_review_feedback];
    - [src/src/github/client.py]: [update_issue_status], [get_ci_status];
    - [src/src/agents/code_agent.py]: [_create_implementation_plan],
      [_discover_relevant_files], [_determine_file_patterns],
      [_pattern_matches], [handle_review_feedback];
    - [src/src/agents/issue_processor.py]: [process_pending_issues].

    Python strings are modelled as ASCII strings ([string] or [list ascii]);
    Python dictionaries returned to callers as records or as JSON values. *)

From Stdlib Require Import Ascii String ZArith.
From stdpp Require Import base list gmap sets strings pretty.

Open Scope list_scope.
#[local] Set Warnings "-register-all,-abstract-large-number".

(* ------------------------------------------------------------------ *)
(** ** String helpers shared by the embeddings *)

Module Str.

(** [Python: a == b] on characters. *)
Definition ceq (a b : ascii) : bool := Ascii.eqb a b.

(** [Python: s.startswith(p)] *)
Fixpoint startswith (s p : list ascii) : bool :=
  match p, s with
  | [], _ => true
  | c :: p', d :: s' => ceq c d && startswith s' p'
  | _ :: _, [] => false
  end.

(** [Python: needle in hay] (substring test). *)
Fixpoint contains (hay needle : list ascii) : bool :=
  startswith hay needle ||
  match hay with
  | [] => false
  | _ :: hay' => contains hay' needle
  end.

(** [Python: s.endswith(p)] *)
Definition endswith (s p : list ascii) : bool :=
  startswith (rev s) (rev p).

(** [Python: s[:n]] *)
Definition take (n : nat) (s : list ascii) : list ascii := firstn n s.

(** ASCII [str.lower()]: only 'A'..'Z' change. *)
Definition lower_char (c : ascii) : ascii :=
  let n := nat_of_ascii c in
  if (65 <=? n) && (n <=? 90) then ascii_of_nat (n + 32) else c.

Definition lower (s : list ascii) : list ascii := map lower_char s.

Definition s (x : string) : list ascii := list_ascii_of_string x.

End Str.

(* ------------------------------------------------------------------ *)
(** ** Review state machine: [_determine_next_action] *)

Module Review.

(** The keys of [review_results] read by the decision; a missing key is
    [None], so that [dict.get(key, default)] is modelled exactly. *)
Record review_results := {
  rr_meets_requirements : option bool;
  rr_status : option string
}.

(** [ci_status.get("success", False)] *)
Record ci_status_view := { ci_success_key : option bool }.

Definition get {A} (o : option A) (d : A) : A :=
  match o with Some a => a | None => d end.

Definition determine_next_action (r : review_results) (ci : ci_status_view)
  : string :=
  let meets_requirements := get (rr_meets_requirements r) false in
  let review_status := get (rr_status r) "needs_work"%string in
  let ci_success := get (ci_success_key ci) false in
  if meets_requirements && String.eqb review_status "approved" && ci_success
  then "merge"
  else if negb ci_success then "fix_ci"
  else if negb meets_requirements || negb (String.eqb review_status "approved")
  then "request_changes"
  else "wait".

(** The same decision on already-defaulted values. *)
Definition next_action (meets : bool) (status : string) (ci : bool) : string :=
  determine_next_action
    {| rr_meets_requirements := Some meets; rr_status := Some status |}
    {| ci_success_key := Some ci |}.

End Review.

(* ------------------------------------------------------------------ *)
(** ** CI status aggregation: [GitHubClient.get_ci_status] *)

Module CI.

Record commit_status := {
  st_context : string;
  st_state : string;
  st_description : string;
  st_target_url : string
}.

(** A commit is the list [commit.get_statuses()]. *)
Definition commit := list commit_status.

Record ci_result := {
  success : bool;
  jobs : list commit_status;
  details : string
}.

Definition last_commit (cs : list commit) : option commit :=
  last cs.

(** The body of the [for status in statuses] loop. *)
Definition step (res : ci_result) (st : commit_status) : ci_result :=
  let res := {| success := success res; jobs := jobs res ++ [st];
                details := details res |} in
  if negb (String.eqb (st_state st) "success") then
    {| success := false; jobs := jobs res;
       details := (details res ++ st_context st ++ ": " ++ st_state st
                   ++ String (ascii_of_nat 10) EmptyString)%string |}
  else res.

Definition get_ci_status (commits : list commit) : ci_result :=
  match last_commit commits with
  | None => {| success := false; jobs := []; details := "No commits found" |}
  | Some latest =>
      fold_left step latest {| success := true; jobs := []; details := EmptyString |}
  end.

End CI.

(* ------------------------------------------------------------------ *)
(** ** Label groups: [update_issue_status] and [_post_review_feedback] *)

Module Labels.

(** [{"in-progress", "needs-review", "ready", "blocked"}] *)
Definition status_labels : gset string :=
  list_to_set ["in-progress"; "needs-review"; "ready"; "blocked"]%string.

(** [{"approved", "changes-requested", "needs-work"}] *)
Definition review_labels : gset string :=
  list_to_set ["approved"; "changes-requested"; "needs-work"]%string.

(** [status.lower().replace(" ", "-")] *)
Definition normalize_status (status : string) : string :=
  string_of_list_ascii
    (map (fun c => if Str.ceq c " "%char then "-"%char else c)
         (Str.lower (list_ascii_of_string status))).

(** The part of an issue or pull request the label calls touch. *)
Record entity := {
  labels : gset string;
  comments : list string
}.

(** [GitHubClient.update_issue_status(issue_number, status, comment)]:
    the optional status comment, then [issue.set_labels] on [new_labels],
    which replaces the label set. *)
Definition update_issue_status (issue : entity) (status comment : string)
  : entity :=
  let issue :=
    if String.eqb comment EmptyString then issue
    else {| labels := labels issue;
            comments := comments issue ++
              [("**Status Update**: " ++ status ++
                String (ascii_of_nat 10) (String (ascii_of_nat 10) EmptyString) ++
                comment)%string] |} in
  let new_labels := labels issue ∖ status_labels in
  let new_labels := {[ normalize_status status ]} ∪ new_labels in
  {| labels := new_labels; comments := comments issue |}.

(** The label part of [ReviewerAgent._post_review_feedback]; [status] and
    [meets] are [review_results.get("status", "unknown")] and
    [review_results.get("meets_requirements", False)] before defaulting.
    The formatted report is appended as a comment afterwards. *)
Definition review_outcome_label (status : option string) (meets : option bool)
  : string :=
  let status := match status with Some x => x | None => "unknown"%string end in
  let meets := match meets with Some b => b | None => false end in
  if String.eqb status "approved" && meets then "approved"
  else if String.eqb status "changes_requested" then "changes-requested"
  else "needs-work".

Definition post_review_feedback (pr : entity) (status : option string)
  (meets : option bool) (report : string) : entity :=
  let new_labels := labels pr ∖ review_labels in
  let new_labels := {[ review_outcome_label status meets ]} ∪ new_labels in
  {| labels := new_labels; comments := comments pr ++ [report] |}.

End Labels.

(* ------------------------------------------------------------------ *)
(** ** Branch naming: [CodeAgent._create_implementation_plan] *)

Module Branch.
Import Str.

Definition in_range (lo hi : nat) (c : ascii) : bool :=
  (lo <=? nat_of_ascii c) && (nat_of_ascii c <=? hi).

(** Membership in the character class [[a-zA-Z0-9-]]. *)
Definition word_char (c : ascii) : bool :=
  in_range 97 122 c || in_range 65 90 c || in_range 48 57 c || ceq c "-"%char.

(** [re.sub(r'[^a-zA-Z0-9-]', '-', s)], character by character. *)
Definition sanitize (c : ascii) : ascii := if word_char c then c else "-"%char.

(** [re.sub(r'-+', '-', s)]: [in_run] records that the last emitted
    character is a hyphen of the current run. *)
Fixpoint squeeze (in_run : bool) (s : list ascii) : list ascii :=
  match s with
  | [] => []
  | c :: t =>
      if ceq c "-"%char then
        if in_run then squeeze true t else "-"%char :: squeeze true t
      else c :: squeeze false t
  end.

Fixpoint lstrip_dash (s : list ascii) : list ascii :=
  match s with
  | c :: t => if ceq c "-"%char then lstrip_dash t else s
  | [] => []
  end.

(** [s.strip('-')] *)
Definition strip_dash (s : list ascii) : list ascii :=
  rev (lstrip_dash (rev (lstrip_dash s))).

(** [clean_title] as computed in the source. *)
Definition clean_title (issue_title : list ascii) : list ascii :=
  let t := map sanitize (lower issue_title) in
  take 50 (strip_dash (squeeze false t)).

(** [f"{settings.branch_prefix}issue-{issue_number}-{clean_title}"[:100]] *)
Definition branch_name (branch_prefix : list ascii) (issue_number : nat)
  (issue_title : list ascii) : list ascii :=
  take 100 (branch_prefix ++ s "issue-" ++ s (pretty issue_number) ++ s "-"
            ++ clean_title issue_title).

(** The derivation as the spec words it, for comparison with the source:
    every maximal run of characters selected by [sep] becomes one hyphen. *)
Fixpoint collapse_runs (sep : ascii -> bool) (in_run : bool) (t : list ascii)
  : list ascii :=
  match t with
  | [] => []
  | c :: t' =>
      if sep c then
        if in_run then collapse_runs sep true t'
        else "-"%char :: collapse_runs sep true t'
      else c :: collapse_runs sep false t'
  end.

(** Separators in the spec's wording: non-alphanumeric, non-hyphen. *)
Definition spec_sep (c : ascii) : bool := negb (word_char c).

Definition spec_branch_name (branch_prefix : list ascii) (issue_number : nat)
  (issue_title : list ascii) : list ascii :=
  let t := take 50 (strip_dash (collapse_runs spec_sep false (lower issue_title))) in
  take 100 (branch_prefix ++ s "issue-" ++ s (pretty issue_number) ++ s "-" ++ t).

(** Separators as the source treats them: every character outside
    [[a-z0-9]], hyphens included. *)
Definition code_sep (c : ascii) : bool := negb (word_char c) || ceq c "-"%char.

End Branch.

(* ------------------------------------------------------------------ *)
(** ** Response interpretation: [_perform_llm_review] *)

Module Interp.
Import Str.

(** Decoded JSON values, as [json.loads] returns them. *)
Inductive json :=
| JNull
| JBool (b : bool)
| JNum (z : Z)
| JStr (t : list ascii)
| JArr (l : list json)
| JObj (l : list (list ascii * json)).

(** The exceptions [json.loads] raises: [JSONDecodeError] for a text that
    is not JSON, [ValueError] for an integer literal of more than
    [sys.get_int_max_str_digits()] digits, [RecursionError] for a nesting
    deeper than the interpreter's remaining recursion budget. *)
Inductive exc := JSONDecodeError | ValueError | RecursionError.

(** The result of a call of [json.loads]: a value, or a raised exception. *)
Inductive loads_result :=
| Loaded (v : json)
| LoadRaised (e : exc).

(** A model of CPython's [json.loads] (its C scanner) on the JSON subset of
    integers, strings with the simple escapes, literals, arrays and objects.
    A scan that meets a construct outside that subset, which [json.loads]
    decodes to a value the type [json] does not hold (a fraction or an
    exponent, a [\u] escape, [NaN], [Infinity], [-Infinity]), stops with
    [Unmodelled]; so does a scan that runs out of [fuel]. Every other
    outcome is the one [json.loads] has. The decoder starts at [is_ws]
    below. *)
Inductive scan (A : Type) :=
| Scanned (a : A) (rest : list ascii)
| ScanRaised (e : exc)
| Unmodelled.
Arguments Scanned {A} a rest.
Arguments ScanRaised {A} e.
Arguments Unmodelled {A}.

(** The double-quote character. *)
Definition dq : ascii := ascii_of_nat 34.

(** JSON sample texts are written with ['] for the double quote. *)
Definition q (x : string) : list ascii :=
  map (fun c => if ceq c "'"%char then dq else c) (s x).

Definition is_ws (c : ascii) : bool :=
  ceq c " "%char || ceq c (ascii_of_nat 9) || ceq c (ascii_of_nat 10)
  || ceq c (ascii_of_nat 13).

Fixpoint skip_ws (t : list ascii) : list ascii :=
  match t with
  | c :: t' => if is_ws c then skip_ws t' else t
  | [] => []
  end.

Definition is_digit (c : ascii) : bool :=
  (48 <=? nat_of_ascii c) && (nat_of_ascii c <=? 57).

Definition digit_val (c : ascii) : Z := Z.of_nat (nat_of_ascii c - 48).

Fixpoint digits (acc : Z) (t : list ascii) : Z * list ascii :=
  match t with
  | c :: t' => if is_digit c then digits (acc * 10 + digit_val c)%Z t'
               else (acc, t)
  | [] => (acc, t)
  end.

(** The default of [sys.get_int_max_str_digits()]. *)
Definition int_max_str_digits : nat := 4300.

(** After the integer digits of a number: a ['.'] followed by a digit, or
    an ['e'] or ['E'] followed by digits (after an optional sign), make the
    literal a float. *)
Definition float_follows (r : list ascii) : bool :=
  match r with
  | c :: r' =>
      (ceq c "."%char && match r' with d :: _ => is_digit d | [] => false end) ||
      ((ceq c "e"%char || ceq c "E"%char) &&
       match r' with
       | x :: r'' =>
           if ceq x "+"%char || ceq x "-"%char
           then match r'' with d :: _ => is_digit d | [] => false end
           else is_digit x
       | [] => false
       end)
  | [] => false
  end.

(** [_match_number_unicode]: an optional ['-'], then a single ['0'] or a
    non-zero digit and more; [int] of the literal raises [ValueError]
    beyond [int_max_str_digits] digits. *)
Definition parse_number (t : list ascii) : scan json :=
  let '(neg, t1) := match t with
                    | c :: t' => if ceq c "-"%char then (true, t') else (false, t)
                    | [] => (false, t)
                    end in
  let num := match t1 with
             | c :: t2 =>
                 if ceq c "0"%char then Some (0%Z, t2)
                 else if is_digit c then Some (digits (digit_val c) t2)
                 else None
             | [] => None
             end in
  match num with
  | None => ScanRaised JSONDecodeError
  | Some (z, r) =>
      if float_follows r then Unmodelled
      else if int_max_str_digits <? length t1 - length r then ScanRaised ValueError
      else Scanned (JNum (if neg then (- z)%Z else z)) r
  end.

Definition unescape (c : ascii) : option ascii :=
  if ceq c dq then Some c
  else if ceq c "\"%char then Some c
  else if ceq c "/"%char then Some c
  else if ceq c "n"%char then Some (ascii_of_nat 10)
  else if ceq c "t"%char then Some (ascii_of_nat 9)
  else if ceq c "r"%char then Some (ascii_of_nat 13)
  else if ceq c "b"%char then Some (ascii_of_nat 8)
  else if ceq c "f"%char then Some (ascii_of_nat 12)
  else None.

Definition scan_cons (c : ascii) (r : scan (list ascii)) : scan (list ascii) :=
  match r with
  | Scanned b rest => Scanned (c :: b) rest
  | ScanRaised e => ScanRaised e
  | Unmodelled => Unmodelled
  end.

(** The body of a string literal, after its opening quote ([scanstring]
    with [strict=True]). *)
Fixpoint parse_str_body (t : list ascii) : scan (list ascii) :=
  match t with
  | [] => ScanRaised JSONDecodeError
  | c :: t' =>
      if ceq c dq then Scanned [] t'
      else if nat_of_ascii c <? 32 then ScanRaised JSONDecodeError
      else if ceq c "\"%char then
        match t' with
        | e :: t'' =>
            if ceq e "u"%char then Unmodelled
            else match unescape e with
                 | Some e' => scan_cons e' (parse_str_body t'')
                 | None => ScanRaised JSONDecodeError
                 end
        | [] => ScanRaised JSONDecodeError
        end
      else scan_cons c (parse_str_body t')
  end.

Definition parse_str (t : list ascii) : scan (list ascii) :=
  match t with
  | c :: t' => if ceq c dq then parse_str_body t' else ScanRaised JSONDecodeError
  | [] => ScanRaised JSONDecodeError
  end.

(** [scan_once_unicode]; [depth] is the recursion budget left, spent by
    each ['{'] or ['['] entered ([Py_EnterRecursiveCall]). *)
Fixpoint parse_value (fuel depth : nat) (t : list ascii) : scan json :=
  match fuel with
  | O => Unmodelled
  | S f =>
      match skip_ws t with
      | [] => ScanRaised JSONDecodeError
      | (c :: t') as u =>
          if ceq c "{"%char then
            match depth with
            | O => ScanRaised RecursionError
            | S d =>
                match skip_ws t' with
                | c' :: t'' => if ceq c' "}"%char then Scanned (JObj []) t''
                               else parse_members f d [] (skip_ws t')
                | [] => ScanRaised JSONDecodeError
                end
            end
          else if ceq c "["%char then
            match depth with
            | O => ScanRaised RecursionError
            | S d =>
                match skip_ws t' with
                | c' :: t'' => if ceq c' "]"%char then Scanned (JArr []) t''
                               else parse_elements f d [] t'
                | [] => ScanRaised JSONDecodeError
                end
            end
          else if ceq c dq then
            match parse_str u with
            | Scanned b r => Scanned (JStr b) r
            | ScanRaised e => ScanRaised e
            | Unmodelled => Unmodelled
            end
          else if startswith u (s "null") then Scanned JNull (skipn 4 u)
          else if startswith u (s "true") then Scanned (JBool true) (skipn 4 u)
          else if startswith u (s "false") then Scanned (JBool false) (skipn 5 u)
          else if startswith u (s "NaN") || startswith u (s "Infinity")
                  || startswith u (s "-Infinity") then Unmodelled
          else parse_number u
      end
  end
(** Object members, starting at a key; [acc] holds those already read. *)
with parse_members (fuel depth : nat) (acc : list (list ascii * json))
  (t : list ascii) : scan json :=
  match fuel with
  | O => Unmodelled
  | S f =>
      match parse_str (skip_ws t) with
      | ScanRaised e => ScanRaised e
      | Unmodelled => Unmodelled
      | Scanned k r =>
          match skip_ws r with
          | c :: r' =>
              if ceq c ":"%char then
                match parse_value f depth r' with
                | ScanRaised e => ScanRaised e
                | Unmodelled => Unmodelled
                | Scanned v r'' =>
                    match skip_ws r'' with
                    | d :: r3 =>
                        if ceq d ","%char then parse_members f depth (acc ++ [(k, v)]) r3
                        else if ceq d "}"%char then Scanned (JObj (acc ++ [(k, v)])) r3
                        else ScanRaised JSONDecodeError
                    | [] => ScanRaised JSONDecodeError
                    end
                end
              else ScanRaised JSONDecodeError
          | [] => ScanRaised JSONDecodeError
          end
      end
  end
(** Array elements, starting at an element. *)
with parse_elements (fuel depth : nat) (acc : list json) (t : list ascii)
  : scan json :=
  match fuel with
  | O => Unmodelled
  | S f =>
      match parse_value f depth t with
      | ScanRaised e => ScanRaised e
      | Unmodelled => Unmodelled
      | Scanned v r =>
          match skip_ws r with
          | d :: r' =>
              if ceq d ","%char then parse_elements f depth (acc ++ [v]) r'
              else if ceq d "]"%char then Scanned (JArr (acc ++ [v])) r'
              else ScanRaised JSONDecodeError
          | [] => ScanRaised JSONDecodeError
          end
      end
  end.

(** [json.loads(t)] with recursion budget [depth]; [None] when the scan
    is [Unmodelled]. Text after the value other than blanks raises
    [JSONDecodeError] ("Extra data"). *)
Definition json_loads (depth : nat) (t : list ascii) : option loads_result :=
  match parse_value (S (2 * length t)) depth t with
  | Scanned v r => Some (match skip_ws r with
                         | [] => Loaded v
                         | _ => LoadRaised JSONDecodeError
                         end)
  | ScanRaised e => Some (LoadRaised e)
  | Unmodelled => None
  end.

(** [re.search(r'\{.*\}', response, re.DOTALL)]: the leftmost match starts
    at the first ['{'] and, [.*] being greedy, ends at the last ['}'];
    there is no match when no ['}'] follows the first ['{']. *)
Fixpoint from_first_open (t : list ascii) : option (list ascii) :=
  match t with
  | [] => None
  | c :: t' => if ceq c "{"%char then Some t else from_first_open t'
  end.

Fixpoint drop_to_close (t : list ascii) : list ascii :=
  match t with
  | c :: t' => if ceq c "}"%char then t else drop_to_close t'
  | [] => []
  end.

Definition upto_last_close (t : list ascii) : option (list ascii) :=
  match drop_to_close (rev t) with
  | [] => None
  | r => Some (rev r)
  end.

Definition regex_span (t : list ascii) : option (list ascii) :=
  match from_first_open t with
  | None => None
  | Some u => upto_last_close u
  end.

Definition jstr (x : string) : json := JStr (s x).

(** [ReviewerAgent._create_fallback_review(response)] *)
Definition fallback_review (response : list ascii) : json :=
  let status :=
    if contains (lower response) (s "approved") then "approved"%string
    else if contains (lower response) (s "changes") then "changes_requested"%string
    else "needs_work"%string in
  JObj [(s "summary",
           JStr (if 500 <? length response then take 500 response ++ s "..."
                 else response));
        (s "status", jstr status);
        (s "issues_found", JArr []);
        (s "positive_feedback", JArr []);
        (s "suggestions",
           JArr [jstr "Could not parse detailed review. Please review manually."]);
        (s "overall_score", JNum 50);
        (s "meets_requirements", JBool false)].

(** The record returned by the [except Exception] branch. *)
Definition error_review : json :=
  JObj [(s "summary", jstr "Review failed due to technical error.");
        (s "status", jstr "needs_work");
        (s "issues_found", JArr []);
        (s "positive_feedback", JArr []);
        (s "suggestions", JArr [jstr "Please check the implementation manually."]);
        (s "overall_score", JNum 0);
        (s "meets_requirements", JBool false)].

(** Outcome of [self.llm.generate(...)]. *)
Inductive llm_outcome :=
| Generated (response : list ascii)
| GenerateRaised.

(** [ReviewerAgent._perform_llm_review], after the prompt is built, for
    [json.loads] behaving as [loads]. The inner [except] catches only
    [JSONDecodeError] and falls through to the fallback review; any other
    exception of [json.loads] reaches the outer [except Exception], as a
    failing model call does. The result type has no exceptional case:
    every path returns a record. *)
Definition perform_llm_review (loads : list ascii -> loads_result)
  (o : llm_outcome) : json :=
  match o with
  | GenerateRaised => error_review
  | Generated response =>
      match regex_span response with
      | Some span =>
          match loads span with
          | Loaded v => v
          | LoadRaised JSONDecodeError => fallback_review response
          | LoadRaised _ => error_review
          end
      | None => fallback_review response
      end
  end.

(** [json.loads] on the texts of the examples below, all of which lie in
    the modelled subset and nest at most two levels deep, far within the
    recursion budget of any CPython version: [json_loads] with a budget
    of 900; an [Unmodelled] scan, which does not occur on those texts, is
    read as [JSONDecodeError]. *)
Definition sample_loads (t : list ascii) : loads_result :=
  match json_loads 900 t with
  | Some r => r
  | None => LoadRaised JSONDecodeError
  end.

End Interp.

(* ------------------------------------------------------------------ *)
(** ** File relevance resolution: [_discover_relevant_files] *)

Module Discover.
Import Str.

Definition python_keywords := [s "python"; s ".py"; s "py file"].
Definition doc_keywords := [s "documentation"; s "readme"; s ".md"; s "markdown"].
Definition test_keywords := [s "test"; s "tests"; s "testing"].
Definition config_keywords :=
  [s "config"; s "configuration"; s ".json"; s ".yaml"; s ".yml"].

(** [any(keyword in requirement for keyword in ks)] *)
Definition mentions (requirement : list ascii) (ks : list (list ascii)) : bool :=
  existsb (contains requirement) ks.

(** [CodeAgent._determine_file_patterns] *)
Definition determine_file_patterns (requirement : list ascii)
  : list (list ascii) :=
  let patterns :=
    (if mentions requirement python_keywords then [s "*.py"] else []) ++
    (if mentions requirement doc_keywords then [s "*.md"] else []) ++
    (if mentions requirement test_keywords then [s "*test*.py"] else []) ++
    (if mentions requirement config_keywords
     then [s "*.json"; s "*.yaml"; s "*.yml"] else []) in
  match patterns with
  | [] => [s "*.py"]
  | _ => patterns
  end.

Definition list_ascii_eqb (a b : list ascii) : bool :=
  String.eqb (string_of_list_ascii a) (string_of_list_ascii b).

(** [CodeAgent._pattern_matches]; for a pattern ['*' :: rest],
    [pattern[1:]] is [rest] and [pattern[1:-1]] is [removelast rest]. *)
Definition pattern_matches (pattern file_path : list ascii) : bool :=
  match pattern with
  | c :: rest =>
      if ceq c "*"%char then
        endswith file_path rest ||
        (let mid := removelast rest in
         if existsb (ceq "*"%char) mid then contains file_path mid else false)
      else list_ascii_eqb file_path pattern
  | [] => list_ascii_eqb file_path pattern
  end.

Definition excluded_dirs :=
  [s "__pycache__"; s "node_modules/"; s "venv/"; s ".venv/"; s "env/";
   s "dist/"; s "build/"; s ".git"].

(** The test applied to each [item.path] of the tree. *)
Definition keep (patterns : list (list ascii)) (path : list ascii) : bool :=
  existsb (fun p => pattern_matches p path) patterns &&
  negb (existsb (contains path) excluded_dirs).

(** [CodeAgent._discover_relevant_files]; the tree is the list of paths
    returned by [get_repository_tree(recursive=True)], or [None] when that
    call raises (the [except] branch returns [[]]). *)
Definition discover_relevant_files (requirement : list ascii)
  (tree : option (list (list ascii))) : list (list ascii) :=
  match tree with
  | None | Some [] => []
  | Some items =>
      let patterns := determine_file_patterns requirement in
      firstn 50 (List.filter (keep patterns) items)
  end.

End Discover.

(* ------------------------------------------------------------------ *)
(** ** Revision re-entry: [CodeAgent.handle_review_feedback] *)

Module Feedback.

(** Observable effects of one call. *)
Inductive event :=
| PrComment (pr : nat) (text : string)
| ReadFile (path : string)
| WriteFile (path : string) (content : string).

(** The platform and the model as seen by the method: the configured
    [settings.max_iterations], the changed files of each pull request, the
    content of a file on the pull request's head ref ([None] when
    [get_file_content] returns [None]), and the model's revision of a file
    for a feedback text ([None] when the model call raises). *)
Record env := {
  max_iterations : nat;
  changed_files : nat -> list string;
  file_content : nat -> string -> option string;
  apply_feedback : string -> string -> string -> option string
}.

Record agent := { iteration_count : nat }.

Definition escalation : string :=
  "Maximum iteration limit reached. Manual intervention required.".

Definition progress (k n : nat) : string :=
  ("Received review feedback. Making adjustments (iteration " ++ pretty k
   ++ "/" ++ pretty n ++ ")...")%string.

(** One pass of [for file_path in changed_files]; failures of a file are
    caught and the loop continues. *)
Definition revise_file (E : env) (pr : nat) (feedback : string) (path : string)
  : list event :=
  ReadFile path ::
  match file_content E pr path with
  | None => []
  | Some current =>
      if String.eqb current EmptyString then []
      else match apply_feedback E path current feedback with
           | None => []
           | Some new_content =>
               if String.eqb new_content current then []
               else [WriteFile path new_content]
           end
  end.

Definition revise_files (E : env) (pr : nat) (feedback : string) : list event :=
  flat_map (revise_file E pr feedback) (changed_files E pr).

Definition handle_review_feedback (E : env) (a : agent) (pr : nat)
  (feedback : string) : bool * agent * list event :=
  let count := S (iteration_count a) in
  let a := {| iteration_count := count |} in
  if max_iterations E <? count then (false, a, [PrComment pr escalation])
  else (true, a, PrComment pr (progress count (max_iterations E))
                 :: revise_files E pr feedback).

(** A sequence of calls on one agent instance. *)
Fixpoint run (E : env) (a : agent) (calls : list (nat * string))
  : list (bool * list event) :=
  match calls with
  | [] => []
  | (pr, fb) :: rest =>
      let '(ok, a', evs) := handle_review_feedback E a pr fb in
      (ok, evs) :: run E a' rest
  end.

Definition fresh_agent : agent := {| iteration_count := 0 |}.

End Feedback.

(* ------------------------------------------------------------------ *)
(** ** Poll cycle: [IssueProcessor.process_pending_issues] *)

Module Cycle.

(** The result of a call that may raise an [Exception]. *)
Inductive outcome (A : Type) :=
| Returned (a : A)
| Raised (msg : string).
Arguments Returned {A} a.
Arguments Raised {A} msg.

(** An issue with the outcome of [code_agent.process_issue(issue.number)]. *)
Record issue_item := { issue_number : nat; issue_outcome : outcome (option nat) }.

(** A pull request with the outcome of [review_pull_request(pr.number)]. *)
Record pr_item := { pr_number : nat; review_outcome : outcome unit }.

Record results := {
  issues_processed : nat;
  prs_reviewed : nat;
  errors : list string
}.

(** The calls made, in order. *)
Inductive call := ProcessIssue (n : nat) | ReviewPr (n : nat).

Record state := { processed_issues : gset nat; trace : list call }.

Definition issue_error (n : nat) (m : string) : string :=
  ("Issue #" ++ pretty n ++ ": " ++ m)%string.
Definition pr_error (n : nat) (m : string) : string :=
  ("PR #" ++ pretty n ++ ": " ++ m)%string.

Definition issue_step (acc : results * state) (it : issue_item) : results * state :=
  let '(r, st) := acc in
  let st := {| processed_issues := processed_issues st;
               trace := trace st ++ [ProcessIssue (issue_number it)] |} in
  match issue_outcome it with
  | Returned (Some pr) =>
      if Nat.eqb pr 0 then (r, st)
      else ({| issues_processed := S (issues_processed r);
               prs_reviewed := prs_reviewed r; errors := errors r |},
            {| processed_issues := {[ issue_number it ]} ∪ processed_issues st;
               trace := trace st |})
  | Returned None => (r, st)
  | Raised m =>
      ({| issues_processed := issues_processed r; prs_reviewed := prs_reviewed r;
          errors := errors r ++ [issue_error (issue_number it) m] |}, st)
  end.

Definition pr_step (acc : results * state) (it : pr_item) : results * state :=
  let '(r, st) := acc in
  let st := {| processed_issues := processed_issues st;
               trace := trace st ++ [ReviewPr (pr_number it)] |} in
  match review_outcome it with
  | Returned _ =>
      ({| issues_processed := issues_processed r; prs_reviewed := S (prs_reviewed r);
          errors := errors r |}, st)
  | Raised m =>
      ({| issues_processed := issues_processed r; prs_reviewed := prs_reviewed r;
          errors := errors r ++ [pr_error (pr_number it) m] |}, st)
  end.

Definition processor_error (r : results) (m : string) : results :=
  {| issues_processed := issues_processed r; prs_reviewed := prs_reviewed r;
     errors := errors r ++ [("Processor error: " ++ m)%string] |}.

(** [process_pending_issues]: [new_issues] and [pending_prs] are the
    outcomes of [_get_new_issues()] and [_get_pending_prs()], the latter
    called after the issue loop. The function's type has no exceptional
    result: the cycle always returns its [results]. *)
Definition process_pending_issues (st : state)
  (new_issues : outcome (list issue_item)) (pending_prs : outcome (list pr_item))
  : results * state :=
  let r0 := {| issues_processed := 0; prs_reviewed := 0; errors := [] |} in
  match new_issues with
  | Raised m => (processor_error r0 m, st)
  | Returned issues =>
      let '(r1, st1) := fold_left issue_step issues (r0, st) in
      match pending_prs with
      | Raised m => (processor_error r1 m, st1)
      | Returned prs => fold_left pr_step prs (r1, st1)
      end
  end.

End Cycle.

(* ------------------------------------------------------------------ *)
(** ** Paths: [validate_file_path], [_should_generate_tests],
       [_get_test_file_path], [_get_similar_files] *)

Module Paths.
Import Str.

Definition is_nil {A} (l : list A) : bool :=
  match l with [] => true | _ => false end.

Definition leq (a b : list ascii) : bool := Discover.list_ascii_eqb a b.

(** [str.split('/')]: [cur] holds the current piece, reversed. *)
Fixpoint split_go (cur l : list ascii) : list (list ascii) :=
  match l with
  | [] => [rev cur]
  | c :: t => if ceq c "/"%char then rev cur :: split_go [] t
              else split_go (c :: cur) t
  end.

(** [PurePosixPath(p).name]: the last component once empty and ["."]
    components are dropped, or [''] when there is none. *)
Definition path_name (p : list ascii) : list ascii :=
  match last (List.filter (fun comp => negb (is_nil comp) && negb (leq comp (s ".")))
                          (split_go [] p)) with
  | Some n => n
  | None => []
  end.

(** Scans a reversed text up to the first [ch]: returns the characters
    after the last [ch] of the text (in text order) and the reversed text
    before it. *)
Fixpoint to_char (ch : ascii) (acc r : list ascii)
  : option (list ascii * list ascii) :=
  match r with
  | [] => None
  | c :: t => if ceq c ch then Some (acc, t) else to_char ch (c :: acc) t
  end.

(** [PurePath.suffix]: with [i = name.rfind('.')], [name[i:]] when
    [0 < i < len(name) - 1], else ['']; i.e. the last dot must have
    characters on both sides. *)
Definition suffix (name : list ascii) : list ascii :=
  match to_char "."%char [] (rev name) with
  | Some (ext, before) =>
      if negb (is_nil ext) && negb (is_nil before) then "."%char :: ext else []
  | None => []
  end.

Definition valid_extensions :=
  [s ".py"; s ".md"; s ".txt"; s ".yml"; s ".yaml"; s ".json"; s ".ini"; s ".cfg"].

Definition forbidden_chars := ["~"%char; "$"%char; "`"%char].

(** [validate_file_path] (src/src/utils/validation.py). *)
Definition validate_file_path (file_path : list ascii) : bool :=
  if contains file_path (s "..") then false
  else if startswith file_path (s "/") then false
  else if existsb (fun ch => contains file_path [ch]) forbidden_chars then false
  else
    let file_ext := lower (suffix (path_name file_path)) in
    if negb (existsb (leq file_ext) valid_extensions) && negb (is_nil file_ext)
    then false
    else true.

(** [CodeAgent._should_generate_tests] *)
Definition should_generate_tests (file_path : list ascii) : bool :=
  endswith file_path (s ".py") && negb (startswith file_path (s "test_")) &&
  negb (contains (lower file_path) (s "test")).

Fixpoint lstrip_char (ch : ascii) (l : list ascii) : list ascii :=
  match l with
  | c :: t => if ceq c ch then lstrip_char ch t else l
  | [] => []
  end.

(** [p[:i]] and [p[i:]] for [i = p.rfind('/') + 1]. *)
Definition split_at_last_slash (p : list ascii) : list ascii * list ascii :=
  match to_char "/"%char [] (rev p) with
  | Some (tail, before) => (rev before ++ ["/"%char], tail)
  | None => ([], p)
  end.

(** [os.path.dirname]: the head, with trailing slashes removed unless it
    consists of slashes only. *)
Definition dirname (p : list ascii) : list ascii :=
  let head := fst (split_at_last_slash p) in
  if negb (is_nil head) && negb (forallb (ceq "/"%char) head)
  then rev (lstrip_char "/"%char (rev head))
  else head.

(** [os.path.basename] *)
Definition basename (p : list ascii) : list ascii := snd (split_at_last_slash p).

(** [os.path.join(a, b)] (posixpath, two arguments). *)
Definition join (a b : list ascii) : list ascii :=
  if startswith b (s "/") then b
  else if is_nil a || endswith a (s "/") then a ++ b
  else a ++ "/"%char :: b.

(** An entry of [get_directory_contents("")]. *)
Record dir_item := { di_type : list ascii; di_name : list ascii; di_path : list ascii }.

(** The directory [_get_test_file_path] places tests under: the first
    top-level directory whose lower-cased name contains ["test"], else
    ["tests"]; [None] stands for a raising [get_directory_contents]. *)
Definition test_root (contents : option (list dir_item)) : list ascii :=
  match contents with
  | None => s "tests"
  | Some items =>
      match List.find (fun it => leq (di_type it) (s "dir") &&
                                 contains (lower (di_name it)) (s "test")) items with
      | Some it => di_path it
      | None => s "tests"
      end
  end.

(** [CodeAgent._get_test_file_path] *)
Definition get_test_file_path (contents : option (list dir_item))
  (file_path : list ascii) : list ascii :=
  let dir_name := dirname file_path in
  let test_name := s "test_" ++ basename file_path in
  join (test_root contents)
       (if is_nil dir_name then test_name else join dir_name test_name).

(** The loop of [CodeAgent._get_similar_files], which stops at three. *)
Fixpoint similar_go (file_ext file_path : list ascii) (found : list (list ascii))
  (items : list (list ascii)) : list (list ascii) :=
  match items with
  | [] => found
  | it :: rest =>
      if endswith it file_ext && negb (leq it file_path) then
        let found := found ++ [it] in
        if 3 <=? length found then found else similar_go file_ext file_path found rest
      else similar_go file_ext file_path found rest
  end.

(** [CodeAgent._get_similar_files]; [None] stands for a raising
    [get_repository_tree]. *)
Definition get_similar_files (tree : option (list (list ascii)))
  (file_path : list ascii) : list (list ascii) :=
  match tree with
  | None | Some [] => []
  | Some items => similar_go (suffix (path_name file_path)) file_path [] items
  end.

End Paths.

(* ------------------------------------------------------------------ *)
(** ** Quality gate: [CodeAgent._run_code_quality_checks] *)

Module Quality.
Import Str.

Record qc_settings := { use_ruff : bool; use_black : bool; use_mypy : bool }.

Inductive tool := Ruff | Black | Mypy.

(** Outcome of a [subprocess.run]: its return code, or an exception. *)
Inductive run_outcome := Ran (returncode : Z) | RunRaised.

(** Outcome of the [git clone] step; [CloneRaised] also covers an
    exception of [_get_repo_url_with_auth]. *)
Inductive clone_outcome := CloneRan (returncode : Z) | CloneTimeout | CloneRaised.

(** The keys of the result dictionary read later by [_create_pull_request];
    a missing key is [None]. The [details] text is not modelled. *)
Record qc_report := {
  qc_status : string;
  ruff_passed : option bool;
  black_passed : option bool;
  mypy_passed : option bool
}.

Definition enabled (S : qc_settings) (t : tool) : bool :=
  match t with Ruff => use_ruff S | Black => use_black S | Mypy => use_mypy S end.

Definition passed (r : qc_report) (t : tool) : option bool :=
  match t with Ruff => ruff_passed r | Black => black_passed r | Mypy => mypy_passed r end.

(** One [if settings.use_<tool> and changed_files] block, starting from the
    initial [False]. *)
Definition tool_flag (S : qc_settings) (changed_files : list (list ascii))
  (run : tool -> run_outcome) (t : tool) : bool :=
  if enabled S t && negb (Paths.is_nil changed_files) then
    let python_files := List.filter (fun f => endswith f (s ".py")) changed_files in
    if negb (Paths.is_nil python_files) then
      match run t with Ran rc => Z.eqb rc 0 | RunRaised => false end
    else false
  else false.

Definition failed_report : qc_report :=
  {| qc_status := "failed"; ruff_passed := Some false; black_passed := Some false;
     mypy_passed := Some false |}.

Definition run_code_quality_checks (S : qc_settings)
  (changed_files : list (list ascii)) (clone : clone_outcome)
  (run : tool -> run_outcome) : qc_report :=
  if negb (use_ruff S) && negb (use_black S) && negb (use_mypy S) then
    {| qc_status := "skipped"; ruff_passed := None; black_passed := None;
       mypy_passed := None |}
  else
    match clone with
    | CloneRan rc =>
        if negb (Z.eqb rc 0) then failed_report
        else {| qc_status := "completed";
                ruff_passed := Some (tool_flag S changed_files run Ruff);
                black_passed := Some (tool_flag S changed_files run Black);
                mypy_passed := Some (tool_flag S changed_files run Mypy) |}
    | CloneTimeout | CloneRaised => failed_report
    end.

End Quality.

(* ------------------------------------------------------------------ *)
(** ** File changes: [CodeAgent._implement_changes] *)

Module Implement.
Import Str Paths.

(** The services the loop calls: [get_file_content] on the branch, the
    model's rewrite of an existing file and its new file ([None] when the
    call raises), whether [create_or_update_file] succeeds, the output of
    [_generate_tests] ([None] when it returns [None] or raises), and the
    root listing seen by the [_get_test_file_path] call made for a file. *)
Record impl_env := {
  ie_content : list ascii -> option (list ascii);
  ie_modify : list ascii -> list ascii -> option (list ascii);
  ie_create : list ascii -> option (list ascii);
  ie_write_ok : list ascii -> list ascii -> bool;
  ie_tests : list ascii -> list ascii -> option (list ascii);
  ie_contents : list ascii -> option (list dir_item)
}.

(** A committed file: its path and content. *)
Definition write := (list ascii * list ascii)%type.

(** One iteration of [for file_path in files_to_modify]: the files
    committed and the lines added to [changes_made]; an exception ends
    the iteration, keeping what was done before it. *)
Definition implement_file (E : impl_env) (file_path : list ascii)
  : list write * list (list ascii) :=
  if negb (validate_file_path file_path) then ([], []) else
  let existing := ie_content E file_path in
  let new_content := match existing with
                     | Some c => ie_modify E file_path c
                     | None => ie_create E file_path
                     end in
  let action := match existing with Some _ => s "Modified" | None => s "Created" end in
  match new_content with
  | None => ([], [])
  | Some nc =>
      if negb (ie_write_ok E file_path nc) then ([], []) else
      let ws := [(file_path, nc)] in
      let ch := [action ++ s ": " ++ file_path] in
      if should_generate_tests file_path then
        match ie_tests E file_path nc with
        | Some tc =>
            if is_nil tc then (ws, ch) else
            let test_file_path := get_test_file_path (ie_contents E file_path) file_path in
            if ie_write_ok E test_file_path tc
            then (ws ++ [(test_file_path, tc)], ch ++ [s "Added tests: " ++ test_file_path])
            else (ws, ch)
        | None => (ws, ch)
        end
      else (ws, ch)
  end.

Definition implement_all (E : impl_env) (files_to_modify : list (list ascii))
  : list write * list (list ascii) :=
  fold_left (fun acc f => let r := implement_file E f in
                          (fst acc ++ fst r, snd acc ++ snd r))
            files_to_modify ([], []).

Definition nl : ascii := ascii_of_nat 10.

(** [sep.join(items)] *)
Definition join_with (sep : list ascii) (items : list (list ascii)) : list ascii :=
  match items with
  | [] => []
  | x :: rest => x ++ concat (map (fun y => sep ++ y) rest)
  end.

(** The returned summary. *)
Definition implement_changes (E : impl_env) (files_to_modify : list (list ascii))
  : list ascii :=
  let changes_made := snd (implement_all E files_to_modify) in
  if is_nil changes_made then s "No changes were made" else join_with [nl] changes_made.

End Implement.

(* ------------------------------------------------------------------ *)
(** ** Pull request text: [_create_pull_request], [_extract_issue_number]
       and the diff given to the reviewer *)

Module PrText.
Import Str Quality Implement.

(** [text.split(sep)]: [cur] holds the current piece, reversed. *)
Fixpoint split_on (sep : ascii) (cur l : list ascii) : list (list ascii) :=
  match l with
  | [] => [rev cur]
  | c :: t => if ceq c sep then rev cur :: split_on sep [] t
              else split_on sep (c :: cur) t
  end.

Definition passed_text (o : option bool) : list ascii :=
  match o with Some true => s "Passed" | _ => s "Failed" end.

(** The [pr_body] f-string of [_create_pull_request]. *)
Definition pr_body (issue_number : nat) (branch_name changes_summary : list ascii)
  (quality_report : qc_report) : list ascii :=
  let formatted_changes :=
    join_with [nl] (map (fun line => s "- " ++ line) (split_on nl [] changes_summary)) in
  s "## Summary" ++ [nl] ++
  s "Implements #" ++ s (pretty issue_number) ++ [nl] ++ [nl] ++
  s "## Changes Made" ++ [nl] ++ formatted_changes ++ [nl] ++ [nl] ++
  s "## Quality Checks" ++ [nl] ++
  s "- Ruff: " ++ passed_text (ruff_passed quality_report) ++ [nl] ++
  s "- Black: " ++ passed_text (black_passed quality_report) ++ [nl] ++
  s "- MyPy: " ++ passed_text (mypy_passed quality_report) ++ [nl] ++ [nl] ++
  s "## Notes" ++ [nl] ++
  s "This PR was automatically generated by the Coding Agent system." ++ [nl] ++ [nl] ++
  s "---" ++ [nl] ++ [nl] ++
  s "**Issue**: #" ++ s (pretty issue_number) ++ [nl] ++
  s "**Branch**: " ++ branch_name ++ [nl] ++
  s "**Status**: Ready for review".

(** [re.search(r'#(\d+)', text)] with [int(match.group(1))]: the leftmost
    ['#'] followed by a digit, and the value of the maximal digit run after
    it (ASCII digits). *)
Fixpoint search_issue_ref (t : list ascii) : option Z :=
  match t with
  | [] => None
  | c :: t' =>
      if ceq c "#"%char then
        match t' with
        | d :: _ => if Interp.is_digit d then Some (fst (Interp.digits 0 t'))
                    else search_issue_ref t'
        | [] => None
        end
      else search_issue_ref t'
  end.

(** [ReviewerAgent._extract_issue_number(pr.body)]; [None] for a body that
    is [None]. *)
Definition extract_issue_number (pr_body : option (list ascii)) : option Z :=
  match pr_body with
  | None | Some [] => None
  | Some t => search_issue_ref t
  end.

(** The ["diff_content"] entry of [review_data] in [review_pull_request];
    the conditional expression binds as
    [(d[:15000] + ...) if len(d) > 15000 else (d or "No diff available")]. *)
Definition review_diff (diff_content : list ascii) : list ascii :=
  if 15000 <? length diff_content
  then take 15000 diff_content ++ [nl] ++ s "...[truncated]"
  else if Paths.is_nil diff_content then s "No diff available" else diff_content.

End PrText.

(* ------------------------------------------------------------------ *)
(** ** Review outcome: the merge guard of [review_pull_request] *)

Module ReviewFlow.
Import Str Interp Review.

(** [d.get(key)] on a decoded object: the last binding of a key wins, as
    in the dictionary built by [json.loads]. *)
Definition lookup (key : list ascii) (j : json) : option json :=
  match j with
  | JObj l => option_map snd (List.find (fun kv => Paths.leq (fst kv) key) (rev l))
  | _ => None
  end.

(** Python truthiness of a decoded value. *)
Definition truthy (j : json) : bool :=
  match j with
  | JNull => false
  | JBool b => b
  | JNum z => negb (Z.eqb z 0)
  | JStr t => negb (Paths.is_nil t)
  | JArr l => negb (Paths.is_nil l)
  | JObj l => negb (Paths.is_nil l)
  end.

(** Stands for a status value that is not a string: it compares unequal
    to every status string the code tests for. *)
Definition non_string_status : string := "<non-string>".

(** The entries of [review_results] read by [_determine_next_action] and
    [_post_review_feedback]. *)
Definition view (j : json) : review_results :=
  {| rr_meets_requirements := option_map truthy (lookup (s "meets_requirements") j);
     rr_status := match lookup (s "status") j with
                  | None => None
                  | Some (JStr t) => Some (string_of_list_ascii t)
                  | Some _ => Some non_string_status
                  end |}.

(** [ci_status] as returned by [get_ci_status]. *)
Definition ci_view (r : CI.ci_result) : ci_status_view :=
  {| ci_success_key := Some (CI.success r) |}.

(** [next_action == "merge" and review_results.get("meets_requirements", False)]:
    whether [review_pull_request] calls [merge_pull_request]. *)
Definition merges (review_results : json) (ci : CI.ci_result) : bool :=
  String.eqb (determine_next_action (view review_results) (ci_view ci)) "merge" &&
  get (rr_meets_requirements (view review_results)) false.

(** The review label set by [_post_review_feedback]. *)
Definition review_label (review_results : json) : string :=
  Labels.review_outcome_label (rr_status (view review_results))
                              (rr_meets_requirements (view review_results)).

End ReviewFlow.

(* ------------------------------------------------------------------ *)
(** ** Work intake: [_get_new_issues] and [_get_pending_prs] *)

Module Intake.
Import Labels.

(** An open issue or pull request: its number, labels and comments, and
    its [created_at] or [updated_at] time in microseconds since the epoch
    (UTC; a naive time is read as UTC), [None] when it is not a
    [datetime]. *)
Record item := { it_number : nat; it_entity : entity; it_time : option Z }.

Definition hour : Z := 3600 * 1000000.

Definition skip_labels : list string := ["in-progress"; "processed"; "agent-handled"]%string.

(** [any(label in labels for label in [...])] *)
Definition has_skip_label (e : entity) : bool :=
  existsb (fun l => bool_decide (l ∈ labels e)) skip_labels.

(** [datetime.now(timezone.utc)] is read once per examined item; [clock k]
    is the reading for the [k]-th item. *)
Fixpoint new_issues_go (clock : nat -> Z) (k : nat) (processed : gset nat)
  (issues : list item) : list item * gset nat :=
  match issues with
  | [] => ([], processed)
  | it :: rest =>
      if bool_decide (it_number it ∈ processed) then new_issues_go clock (S k) processed rest
      else if has_skip_label (it_entity it) then
        new_issues_go clock (S k) ({[ it_number it ]} ∪ processed) rest
      else
        let '(out, processed') := new_issues_go clock (S k) processed rest in
        match it_time it with
        | Some created_at =>
            if (clock k - created_at <? 24 * hour)%Z then (it :: out, processed')
            else (out, processed')
        | None => (out, processed')
        end
  end.

(** [IssueProcessor._get_new_issues]: the issues returned and the new
    [processed_issues] set. *)
Definition get_new_issues (clock : nat -> Z) (processed : gset nat)
  (all_issues : list item) : list item * gset nat :=
  new_issues_go clock 0 processed all_issues.

Fixpoint pending_prs_go (clock : nat -> Z) (k : nat) (open_prs : list item)
  : list item :=
  match open_prs with
  | [] => []
  | pr :: rest =>
      if bool_decide ("approved"%string ∈ labels (it_entity pr))
      then pending_prs_go clock (S k) rest
      else match it_time pr with
           | Some updated_at =>
               if (clock k - updated_at <? hour)%Z
               then pr :: pending_prs_go clock (S k) rest
               else pending_prs_go clock (S k) rest
           | None => pending_prs_go clock (S k) rest
           end
  end.

(** [IssueProcessor._get_pending_prs] *)
Definition get_pending_prs (clock : nat -> Z) (open_prs : list item) : list item :=
  pending_prs_go clock 0 open_prs.

End Intake.

(* ================================================================== *)
(** * Properties *)

(* ------------------------------------------------------------------ *)
(** ** Review decision *)

Module ReviewProofs.
Import Review.

Lemma eqb_approved_spec (st : string) :
  String.eqb st "approved" = true <-> st = "approved"%string.
Proof. apply String.eqb_eq. Qed.

(** Claim C1: the next action follows the decision table: all three merge
    conditions give [merge] (checked first); a failed CI otherwise gives
    [fix_ci]; a passing CI with unmet requirements or a status other than
    [approved] gives [request_changes]; anything else gives [wait]. *)
Theorem next_action_decision_table (meets : bool) (status : string) (ci : bool) :
  (meets = true -> status = "approved"%string -> ci = true ->
     next_action meets status ci = "merge"%string) /\
  (ci = false -> ~ (meets = true /\ status = "approved"%string /\ ci = true) ->
     next_action meets status ci = "fix_ci"%string) /\
  (ci = true -> (meets = false \/ status <> "approved"%string) ->
     next_action meets status ci = "request_changes"%string) /\
  (~ (meets = true /\ status = "approved"%string /\ ci = true) ->
   ci <> false -> ~ (meets = false \/ status <> "approved"%string) ->
     next_action meets status ci = "wait"%string).
Proof.
  unfold next_action, determine_next_action; simpl.
  split; [|split; [|split]].
  - intros -> -> ->. reflexivity.
  - intros -> _. rewrite andb_false_r. reflexivity.
  - intros -> [-> | Hs].
    + reflexivity.
    + destruct (String.eqb status "approved") eqn:E.
      * apply eqb_approved_spec in E. contradiction.
      * rewrite andb_false_r. simpl. rewrite orb_true_r. reflexivity.
  - intros Hm Hci Hr. exfalso.
    destruct ci; [|congruence].
    destruct meets; [|apply Hr; left; reflexivity].
    destruct (decide (status = "approved"%string)) as [E|E].
    + apply Hm. auto.
    + apply Hr. right. exact E.
Qed.

Lemma next_action_decision_table_witness :
  next_action true "approved" true = "merge"%string /\
  next_action true "approved" false = "fix_ci"%string /\
  next_action true "changes_requested" true = "request_changes"%string.
Proof.
  split; [|split].
  - apply (proj1 (next_action_decision_table true "approved" true));
      reflexivity.
  - apply (proj1 (proj2 (next_action_decision_table true "approved" false))).
    + reflexivity.
    + intros (_ & _ & H). discriminate H.
  - apply (proj1 (proj2 (proj2
      (next_action_decision_table true "changes_requested" true)))).
    + reflexivity.
    + right. discriminate.
Defined.

(** Claim C9: on every review result (any [meets_requirements], any status,
    keys present or missing) and every CI result, the next action is
    [merge], [fix_ci] or [request_changes]; [wait] is never returned. *)
Theorem next_action_never_wait (r : review_results) (ci : ci_status_view) :
  (determine_next_action r ci = "merge"%string \/
   determine_next_action r ci = "fix_ci"%string \/
   determine_next_action r ci = "request_changes"%string) /\
  determine_next_action r ci <> "wait"%string.
Proof.
  unfold determine_next_action.
  destruct (get (rr_meets_requirements r) false);
  destruct (String.eqb (get (rr_status r) "needs_work") "approved");
  destruct (get (ci_success_key ci) false); simpl;
  split; (try (left; reflexivity)); (try (right; left; reflexivity));
  (try (right; right; reflexivity)); discriminate.
Qed.

End ReviewProofs.

(* ------------------------------------------------------------------ *)
(** ** CI aggregation *)

Module CIProofs.
Import CI.

Lemma fold_step_success (l : list commit_status) (r : ci_result) :
  success (fold_left step l r) =
  success r && forallb (fun st => String.eqb (st_state st) "success") l.
Proof.
  revert r; induction l as [|st l IH]; intros r; simpl.
  - rewrite andb_true_r. reflexivity.
  - rewrite IH. unfold step.
    destruct (String.eqb (st_state st) "success"); simpl.
    + reflexivity.
    + rewrite andb_false_r. reflexivity.
Qed.

(** Claim C10: with at least one commit and no status entry on the latest
    commit the aggregate is a success; with no commit it is a failure; and
    in general it is a success exactly when every status entry of the latest
    commit has state ["success"]. *)
Theorem ci_status_success_spec (commits : list commit) :
  (commits <> [] -> last commits = Some [] -> success (get_ci_status commits) = true) /\
  (commits = [] -> success (get_ci_status commits) = false) /\
  (forall latest, last commits = Some latest ->
     success (get_ci_status commits) =
     forallb (fun st => String.eqb (st_state st) "success") latest).
Proof.
  unfold get_ci_status, last_commit.
  split; [|split].
  - intros _ ->. reflexivity.
  - intros ->. reflexivity.
  - intros latest ->. rewrite fold_step_success. reflexivity.
Qed.

Lemma ci_status_success_spec_witness :
  success (get_ci_status [[]; []]) = true /\
  success (get_ci_status []) = false.
Proof.
  split.
  - apply (proj1 (ci_status_success_spec [[]; []])); [discriminate | reflexivity].
  - apply (proj1 (proj2 (ci_status_success_spec []))). reflexivity.
Defined.

End CIProofs.

(* ------------------------------------------------------------------ *)
(** ** Label groups *)

Module LabelProofs.
Import Labels.

Lemma review_outcome_label_in_group (st : option string) (m : option bool) :
  review_outcome_label st m ∈ review_labels.
Proof.
  unfold review_outcome_label, review_labels.
  rewrite elem_of_list_to_set.
  repeat case_match; set_solver.
Qed.

(** Claim C3: after a status update of an issue with a status of the
    status vocabulary, and after the review-outcome update of a pull
    request, whatever the prior label set, exactly one label of the group
    is present (the new one) and every label outside the group is
    unchanged. *)
Theorem label_group_replace (issue pr : entity) (status comment : string)
  (rstatus : option string) (meets : option bool) (report : string) :
  (normalize_status status ∈ status_labels ->
   let after := labels (update_issue_status issue status comment) in
   after ∩ status_labels = {[ normalize_status status ]} /\
   size (after ∩ status_labels) = 1 /\
   (forall l, l ∉ status_labels -> (l ∈ after <-> l ∈ labels issue))) /\
  (let after := labels (post_review_feedback pr rstatus meets report) in
   after ∩ review_labels = {[ review_outcome_label rstatus meets ]} /\
   size (after ∩ review_labels) = 1 /\
   (forall l, l ∉ review_labels -> (l ∈ after <-> l ∈ labels pr))).
Proof.
  split.
  - intros Hin after.
    assert (Hafter : after = {[ normalize_status status ]} ∪
                             (labels issue ∖ status_labels)).
    { subst after. unfold update_issue_status.
      destruct (String.eqb comment EmptyString); reflexivity. }
    assert (Heq : after ∩ status_labels = {[ normalize_status status ]})
      by (rewrite Hafter; set_solver).
    split; [exact Heq | split].
    + rewrite Heq. apply size_singleton.
    + intros l Hl. rewrite Hafter. set_solver.
  - intros after.
    pose proof (review_outcome_label_in_group rstatus meets) as Hin.
    assert (Heq : after ∩ review_labels = {[ review_outcome_label rstatus meets ]})
      by (subst after; simpl; set_solver).
    split; [exact Heq | split].
    + rewrite Heq. apply size_singleton.
    + intros l Hl. subst after. simpl. set_solver.
Qed.

Definition sample : entity :=
  {| labels := list_to_set ["bug"; "ready"; "blocked"]%string; comments := [] |}.

Lemma label_group_replace_witness :
  labels (update_issue_status sample "In Progress" EmptyString) ∩ status_labels
    = {[ "in-progress"%string ]}.
Proof.
  apply (proj1 (label_group_replace sample sample "In Progress" EmptyString
                  None None EmptyString)).
  unfold status_labels. rewrite elem_of_list_to_set.
  vm_compute. left.
Defined.

End LabelProofs.

(* ------------------------------------------------------------------ *)
(** ** Branch naming *)

Module BranchProofs.
Import Str Branch.

(** Replacing each character outside [[a-zA-Z0-9-]] by a hyphen and then
    squeezing hyphen runs collapses every run of [code_sep] characters. *)
Lemma squeeze_sanitize (t : list ascii) (b : bool) :
  squeeze b (map sanitize t) = collapse_runs code_sep b t.
Proof.
  revert b; induction t as [|c t IH]; intros b; [reflexivity|].
  simpl. unfold sanitize, code_sep.
  destruct (word_char c); simpl.
  - destruct (ceq c "-"%char); destruct b; rewrite ?IH; reflexivity.
  - destruct b; rewrite ?IH; reflexivity.
Qed.

(** Claim C4 (as stated) fails: with the spec's collapse step, hyphens of
    the title are kept, while the source squeezes them too; on the title
    ["a--b"] the source yields [agent/issue-1-a-b] and the spec's steps
    [agent/issue-1-a--b]. *)
Lemma branch_name_spec_steps_counterexample :
  branch_name (s "agent/") 1 (s "a--b") = s "agent/issue-1-a-b" /\
  spec_branch_name (s "agent/") 1 (s "a--b") = s "agent/issue-1-a--b" /\
  branch_name (s "agent/") 1 (s "a--b") <> spec_branch_name (s "agent/") 1 (s "a--b").
Proof.
  split; [vm_compute; reflexivity|split; [vm_compute; reflexivity|]].
  vm_compute. discriminate.
Qed.

(** Claim C4 (amended): the branch name is a function of the prefix, the
    issue number and the title, obtained by lower-casing the title,
    collapsing each run of characters outside [[a-z0-9]] (hyphens included)
    into one hyphen, trimming edge hyphens, truncating to 50 characters,
    prefixing [branch_prefix ++ "issue-<n>-"] and truncating to 100
    characters; its length never exceeds 100. *)
Theorem branch_name_derivation (branch_prefix : list ascii) (n : nat)
  (issue_title : list ascii) :
  branch_name branch_prefix n issue_title =
    take 100 (branch_prefix ++ s "issue-" ++ s (pretty n) ++ s "-" ++
              take 50 (strip_dash (collapse_runs code_sep false
                                     (lower issue_title)))) /\
  length (clean_title issue_title) <= 50 /\
  length (branch_name branch_prefix n issue_title) <= 100.
Proof.
  split; [|split].
  - unfold branch_name, clean_title. rewrite squeeze_sanitize. reflexivity.
  - unfold clean_title, take. apply firstn_le_length.
  - unfold branch_name, take. apply firstn_le_length.
Qed.

End BranchProofs.

(* ------------------------------------------------------------------ *)
(** ** Response interpretation *)

Module InterpProofs.
Import Str Interp.

Lemma ceq_true (a b : ascii) : ceq a b = true -> a = b.
Proof. unfold ceq. apply Ascii.eqb_eq. Qed.

Lemma from_first_open_app (pre u : list ascii) :
  ~ In "{"%char pre -> from_first_open (pre ++ "{"%char :: u) = Some ("{"%char :: u).
Proof.
  induction pre as [|c pre IH]; intros Hn; [reflexivity|].
  simpl. destruct (ceq c "{"%char) eqn:E.
  - apply ceq_true in E. subst c. exfalso. apply Hn. left. reflexivity.
  - apply IH. intros H. apply Hn. right. exact H.
Qed.

Lemma drop_to_close_app (x y : list ascii) :
  ~ In "}"%char x -> drop_to_close (x ++ y) = drop_to_close y.
Proof.
  induction x as [|c x IH]; intros Hn; [reflexivity|].
  simpl. destruct (ceq c "}"%char) eqn:E.
  - apply ceq_true in E. subst c. exfalso. apply Hn. left. reflexivity.
  - apply IH. intros H. apply Hn. right. exact H.
Qed.

Lemma drop_to_close_close (l : list ascii) :
  drop_to_close ("}"%char :: l) = "}"%char :: l.
Proof. reflexivity. Qed.

Lemma regex_span_exact (pre body post : list ascii) :
  ~ In "{"%char pre -> ~ In "}"%char post ->
  regex_span (pre ++ ("{"%char :: body ++ ["}"%char]) ++ post) =
  Some ("{"%char :: body ++ ["}"%char]).
Proof.
  intros Hpre Hpost. unfold regex_span.
  change (("{"%char :: body ++ ["}"%char]) ++ post)
    with ("{"%char :: (body ++ ["}"%char]) ++ post).
  rewrite from_first_open_app by exact Hpre.
  unfold upto_last_close.
  change ("{"%char :: (body ++ ["}"%char]) ++ post)
    with (("{"%char :: body ++ ["}"%char]) ++ post).
  rewrite rev_app_distr, drop_to_close_app by (rewrite <- in_rev; exact Hpost).
  assert (Hr : rev ("{"%char :: body ++ ["}"%char]) =
                "}"%char :: rev ("{"%char :: body)).
  { change ("{"%char :: body ++ ["}"%char]) with (("{"%char :: body) ++ ["}"%char]).
    apply rev_unit. }
  rewrite Hr, drop_to_close_close. rewrite <- Hr, rev_involutive. reflexivity.
Qed.

Lemma from_first_open_some (t u : list ascii) :
  from_first_open t = Some u -> exists a u', t = a ++ u /\ u = "{"%char :: u'.
Proof.
  induction t as [|c t IH]; simpl; [discriminate|].
  destruct (ceq c "{"%char) eqn:E.
  - intros [= <-]. apply ceq_true in E. subst c. exists [], t. auto.
  - intros H. destruct (IH H) as (a & u' & -> & ->).
    exists (c :: a), u'. auto.
Qed.

Lemma drop_to_close_some (l : list ascii) :
  drop_to_close l = [] \/
  exists x r', l = x ++ "}"%char :: r' /\ drop_to_close l = "}"%char :: r'.
Proof.
  induction l as [|c l IH]; simpl; [left; reflexivity|].
  destruct (ceq c "}"%char) eqn:E.
  - apply ceq_true in E. subst c. right. exists [], l. auto.
  - destruct IH as [IH | (x & r' & -> & IH)]; [left; exact IH|].
    right. exists (c :: x), r'. auto.
Qed.

Lemma regex_span_some (t sp : list ascii) :
  regex_span t = Some sp -> exists a b c, t = a ++ "{"%char :: b ++ "}"%char :: c.
Proof.
  unfold regex_span. destruct (from_first_open t) as [u|] eqn:Hf; [|discriminate].
  apply from_first_open_some in Hf as (a & u' & -> & ->).
  unfold upto_last_close.
  destruct (drop_to_close_some (rev ("{"%char :: u'))) as [H | (x & r' & Hx & H)];
    rewrite H; [discriminate|intros _].
  assert (Hu : "{"%char :: u' = rev r' ++ "}"%char :: rev x).
  { rewrite <- (rev_involutive ("{"%char :: u')), Hx, rev_app_distr. simpl.
    rewrite <- app_assoc. reflexivity. }
  destruct (rev r') as [|c b] eqn:Hr; simpl in Hu; [discriminate|].
  injection Hu as <- Hu. subst u'.
  exists a, b, (rev x). reflexivity.
Qed.

(** Claim C2 (as stated) fails: the text [{"a": 1} }] holds one
    well-formed JSON object and no other brace pair, yet the greedy span
    runs to the last ['}']; [json.loads] decodes the object alone but
    raises [JSONDecodeError] ("Extra data") on the span, so the fallback
    review is returned instead of the object. *)
Lemma review_interpretation_counterexample :
  json_loads 900 (q "{'a': 1}") = Some (Loaded (JObj [(s "a", JNum 1)])) /\
  json_loads 900 (q "{'a': 1} }") = Some (LoadRaised JSONDecodeError) /\
  ~ In "{"%char (s " }") /\
  regex_span (q "{'a': 1} }") = Some (q "{'a': 1} }") /\
  perform_llm_review sample_loads (Generated (q "{'a': 1} }")) =
    fallback_review (q "{'a': 1} }") /\
  perform_llm_review sample_loads (Generated (q "{'a': 1} }")) <>
    JObj [(s "a", JNum 1)].
Proof.
  split; [vm_compute; reflexivity|].
  split; [vm_compute; reflexivity|].
  split; [simpl; intros [H|[H|[]]]; discriminate H|].
  split; [vm_compute; reflexivity|].
  split; [vm_compute; reflexivity|].
  vm_compute. discriminate.
Qed.

(** Claim C2 (amended): in the review path, for every behaviour of
    [json.loads], the span taken is the text from its first ['{'] to its
    last ['}']. When the text is [pre ++ obj ++ post] with [obj] a
    ['{'...'}'] text, no ['{'] in [pre] and no ['}'] in [post], the result
    is the decoding of [obj] when [json.loads] returns one, the fallback
    review when it raises [JSONDecodeError], and the technical-error
    record when it raises another exception ([ValueError], [RecursionError]);
    a text with no ['{'] followed by a ['}'] gives the fallback review; a
    failing model call gives the technical-error record; every path returns
    a record. *)
Theorem review_interpretation_greedy_span :
  (forall loads pre body post,
     ~ In "{"%char pre -> ~ In "}"%char post ->
     perform_llm_review loads
       (Generated (pre ++ ("{"%char :: body ++ ["}"%char]) ++ post)) =
     match loads ("{"%char :: body ++ ["}"%char]) with
     | Loaded v => v
     | LoadRaised JSONDecodeError =>
         fallback_review (pre ++ ("{"%char :: body ++ ["}"%char]) ++ post)
     | LoadRaised _ => error_review
     end) /\
  (forall loads text,
     ~ (exists a b c, text = a ++ "{"%char :: b ++ "}"%char :: c) ->
     perform_llm_review loads (Generated text) = fallback_review text) /\
  (forall loads, perform_llm_review loads GenerateRaised = error_review).
Proof.
  split; [|split].
  - intros loads pre body post Hpre Hpost. unfold perform_llm_review.
    rewrite regex_span_exact by assumption. reflexivity.
  - intros loads text Hno. unfold perform_llm_review.
    destruct (regex_span text) as [sp|] eqn:E; [|reflexivity].
    exfalso. apply Hno. exact (regex_span_some text sp E).
  - reflexivity.
Qed.

Lemma review_interpretation_greedy_span_witness :
  perform_llm_review sample_loads (Generated (q "Verdict: {'ok': true} done"))
    = JObj [(s "ok", JBool true)].
Proof.
  refine (eq_trans
    (proj1 review_interpretation_greedy_span sample_loads (s "Verdict: ")
       (q "'ok': true") (s " done") _ _) _).
  - simpl. intros H. repeat (destruct H as [H|H]; [discriminate H|]). exact H.
  - simpl. intros H. repeat (destruct H as [H|H]; [discriminate H|]). exact H.
  - vm_compute. reflexivity.
Defined.

End InterpProofs.

(* ------------------------------------------------------------------ *)
(** ** File relevance resolution *)

Module DiscoverProofs.
Import Str Discover.

Lemma startswith_spec (h n : list ascii) :
  startswith h n = true <-> exists b, h = n ++ b.
Proof.
  revert h; induction n as [|c n IH]; intros h; simpl.
  - split; [intros _; exists h; reflexivity | destruct h; reflexivity].
  - destruct h as [|d h].
    + split; [discriminate | intros [b Hb]; discriminate Hb].
    + simpl. rewrite andb_true_iff, IH. unfold ceq. rewrite Ascii.eqb_eq.
      split.
      * intros [-> [b ->]]. exists b. reflexivity.
      * intros [b Hb]. injection Hb as -> ->. eauto.
Qed.

Lemma contains_spec (h n : list ascii) :
  contains h n = true <-> exists a b, h = a ++ n ++ b.
Proof.
  induction h as [|c h IH]; cbn [contains].
  - rewrite orb_false_r, startswith_spec. split.
    + intros [b Hb]. exists [], b. exact Hb.
    + intros [a [b Hab]]. destruct a; [|discriminate]. exists b. exact Hab.
  - rewrite orb_true_iff, startswith_spec, IH. split.
    + intros [[b Hb] | [a [b Hab]]].
      * exists [], b. exact Hb.
      * exists (c :: a), b. rewrite Hab. reflexivity.
    + intros [a [b Hab]]. destruct a as [|c' a].
      * left. exists b. exact Hab.
      * right. injection Hab as -> Hh. exists a, b. exact Hh.
Qed.

Lemma contains_trans (h m n : list ascii) :
  contains h m = true -> contains m n = true -> contains h n = true.
Proof.
  rewrite !contains_spec. intros (a & b & ->) (c & d & ->).
  exists (a ++ c), (d ++ b). rewrite <- !app_assoc. reflexivity.
Qed.

Definition config_phrase := s "add a configuration loader in yaml".
Definition config_patterns := [s "*.json"; s "*.yaml"; s "*.yml"].

Lemma config_phrase_patterns (requirement : list ascii) :
  contains requirement config_phrase = true ->
  mentions requirement python_keywords = false ->
  mentions requirement doc_keywords = false ->
  mentions requirement test_keywords = false ->
  determine_file_patterns requirement = config_patterns.
Proof.
  intros Hc Hpy Hdoc Htest.
  assert (Hcfg : mentions requirement config_keywords = true).
  { unfold mentions, config_keywords. cbn [existsb].
    rewrite (contains_trans requirement config_phrase (s "config") Hc)
      by (vm_compute; reflexivity).
    reflexivity. }
  unfold determine_file_patterns. rewrite Hpy, Hdoc, Htest, Hcfg. reflexivity.
Qed.

Lemma keep_config (p : list ascii) :
  keep config_patterns p = true ->
  (endswith p (s ".json") = true \/ endswith p (s ".yaml") = true \/
   endswith p (s ".yml") = true) /\
  contains p (s "node_modules/") = false /\ contains p (s ".git") = false.
Proof.
  unfold keep. rewrite andb_true_iff, negb_true_iff. intros [Hm Hx].
  split.
  - assert (Hj : pattern_matches (s "*.json") p = endswith p (s ".json") || false)
      by reflexivity.
    assert (Hya : pattern_matches (s "*.yaml") p = endswith p (s ".yaml") || false)
      by reflexivity.
    assert (Hyl : pattern_matches (s "*.yml") p = endswith p (s ".yml") || false)
      by reflexivity.
    unfold config_patterns in Hm. cbn [existsb] in Hm.
    rewrite Hj, Hya, Hyl, !orb_false_r in Hm.
    rewrite !orb_true_iff in Hm. tauto.
  - unfold excluded_dirs in Hx. cbn [existsb] in Hx.
    rewrite !orb_false_iff in Hx. tauto.
Qed.

Lemma filter_sublist {A} (f : A -> bool) (l : list A) :
  List.filter f l `sublist_of` l.
Proof.
  induction l as [|x l IH]; simpl; [constructor|].
  destruct (f x); constructor; exact IH.
Qed.

Lemma elem_of_filter_true {A} (f : A -> bool) (l : list A) (x : A) :
  x ∈ List.filter f l -> f x = true.
Proof.
  rewrite list_elem_of_In, filter_In. tauto.
Qed.

(** Claim C6: for a requirement text mentioning "add a configuration
    loader in yaml" and no keyword of the other pattern groups, on every
    repository tree, the resolver returns paths of the tree, in tree order,
    at most 50, each ending in [.json], [.yaml] or [.yml] and none
    containing [node_modules/] or [.git]. *)
Theorem config_requirement_discovery (requirement : list ascii)
  (tree : option (list (list ascii))) :
  contains requirement config_phrase = true ->
  mentions requirement python_keywords = false ->
  mentions requirement doc_keywords = false ->
  mentions requirement test_keywords = false ->
  let found := discover_relevant_files requirement tree in
  determine_file_patterns requirement = config_patterns /\
  found `sublist_of` from_option id [] tree /\
  length found <= 50 /\
  (forall p, p ∈ found ->
     (endswith p (s ".json") = true \/ endswith p (s ".yaml") = true \/
      endswith p (s ".yml") = true) /\
     contains p (s "node_modules/") = false /\ contains p (s ".git") = false).
Proof.
  intros Hc Hpy Hdoc Htest found.
  pose proof (config_phrase_patterns requirement Hc Hpy Hdoc Htest) as Hpat.
  split; [exact Hpat|].
  assert (Hfound : found = match tree with
                           | None | Some [] => []
                           | Some items => firstn 50 (List.filter (keep config_patterns) items)
                           end).
  { subst found. unfold discover_relevant_files. rewrite Hpat. reflexivity. }
  destruct tree as [[|i items]|];
    [| | rewrite Hfound; simpl; split; [constructor | split; [lia | intros p Hp; inversion Hp]]];
    [rewrite Hfound; simpl; split; [constructor | split; [lia | intros p Hp; inversion Hp]]|].
  cbv iota in Hfound. rewrite Hfound.
  change (from_option id [] (Some (i :: items))) with (i :: items).
  split; [|split].
  - etrans; [apply sublist_take|apply filter_sublist].
  - apply firstn_le_length.
  - intros p Hp. apply keep_config.
    apply (elem_of_filter_true _ (i :: items)).
    apply (elem_of_sublist _ _ _ Hp). apply sublist_take.
Qed.

Lemma config_requirement_discovery_witness :
  discover_relevant_files config_phrase
    (Some [s "config/app.yaml"; s "src/main.py"; s "node_modules/x.json";
           s "settings.json"])
  = [s "config/app.yaml"; s "settings.json"].
Proof.
  pose proof (config_requirement_discovery config_phrase
    (Some [s "config/app.yaml"; s "src/main.py"; s "node_modules/x.json";
           s "settings.json"])
    ltac:(vm_compute; reflexivity) ltac:(vm_compute; reflexivity)
    ltac:(vm_compute; reflexivity) ltac:(vm_compute; reflexivity)) as H.
  destruct H as [_ _]. vm_compute. reflexivity.
Defined.

(** Claim C7 does not hold: the requirement "add tests" yields the test
    pattern [*test*.py], but [_pattern_matches] tests that pattern by
    suffix [test*.py] or by the literal substring [test*.p] (the ['*']
    kept in), so the test file [tests/test_app.py] is not matched and the
    resolver returns nothing. *)
Theorem test_pattern_misses_test_file :
  determine_file_patterns (s "add tests") = [s "*test*.py"] /\
  pattern_matches (s "*test*.py") (s "tests/test_app.py") = false /\
  discover_relevant_files (s "add tests") (Some [s "tests/test_app.py"]) = [].
Proof.
  split; [vm_compute; reflexivity|split; vm_compute; reflexivity].
Qed.

End DiscoverProofs.

(* ------------------------------------------------------------------ *)
(** ** Iteration cap of the revision re-entry *)

Module FeedbackProofs.
Import Feedback.

Lemma handle_count (E : env) (a : agent) (pr : nat) (fb : string) :
  snd (fst (handle_review_feedback E a pr fb)) =
  {| iteration_count := S (iteration_count a) |}.
Proof.
  unfold handle_review_feedback.
  destruct (max_iterations E <? S (iteration_count a)); reflexivity.
Qed.

(** The [i]-th call of a sequence made on an agent whose counter starts
    at [k] behaves as a single call on counter [k + i]. *)
Lemma run_lookup (E : env) (calls : list (nat * string)) (k i pr : nat)
  (fb : string) :
  calls !! i = Some (pr, fb) ->
  run E {| iteration_count := k |} calls !! i =
  Some (let '(ok, _, evs) :=
          handle_review_feedback E {| iteration_count := k + i |} pr fb in
        (ok, evs)).
Proof.
  revert k i; induction calls as [|[pr' fb'] calls IH]; intros k i Hi;
    [discriminate Hi|].
  simpl.
  pose proof (handle_count E {| iteration_count := k |} pr' fb') as Hc.
  destruct (handle_review_feedback E {| iteration_count := k |} pr' fb')
    as [[ok a'] evs] eqn:Eh.
  simpl in Hc. subst a'.
  destruct i as [|i].
  - injection Hi as -> ->. rewrite Nat.add_0_r, Eh. reflexivity.
  - simpl in Hi. simpl. rewrite (IH (S k) i Hi).
    rewrite Nat.add_succ_r. reflexivity.
Qed.

Lemma revise_files_reads (E : env) (pr : nat) (fb path : string) :
  In path (changed_files E pr) -> In (ReadFile path) (revise_files E pr fb).
Proof.
  intros H. unfold revise_files. apply in_flat_map.
  exists path. split; [exact H|]. left. reflexivity.
Qed.

(** Claim C5: on a fresh agent instance with [max_iterations = N], each of
    the first [N] feedback calls posts the progress comment, reads every
    changed file to revise it, and returns success; every later call (the
    [N+1]-th first) posts the escalation comment, revises nothing and
    returns failure. *)
Theorem feedback_iteration_cap (E : env) (calls : list (nat * string))
  (i pr : nat) (fb : string) :
  calls !! i = Some (pr, fb) ->
  (i < max_iterations E ->
     run E fresh_agent calls !! i =
     Some (true, PrComment pr (progress (S i) (max_iterations E))
                 :: revise_files E pr fb) /\
     (forall path, In path (changed_files E pr) ->
        In (ReadFile path) (revise_files E pr fb))) /\
  (max_iterations E <= i ->
     run E fresh_agent calls !! i = Some (false, [PrComment pr escalation])).
Proof.
  intros Hi. unfold fresh_agent. rewrite (run_lookup E calls 0 i pr fb Hi).
  simpl. unfold handle_review_feedback. simpl.
  split.
  - intros Hlt. split.
    + destruct (Nat.ltb_ge (max_iterations E) (S i)) as [_ H].
      rewrite H by lia. reflexivity.
    + intros path. apply revise_files_reads.
  - intros Hle.
    destruct (Nat.ltb_lt (max_iterations E) (S i)) as [_ H].
    rewrite H by lia. reflexivity.
Qed.

Definition sample_env : env := {|
  max_iterations := 1;
  changed_files := fun _ => ["app.py"%string];
  file_content := fun _ _ => Some "x = 1"%string;
  apply_feedback := fun _ _ _ => Some "x = 2"%string
|}.

Lemma feedback_iteration_cap_witness :
  run sample_env fresh_agent [(7, "rename x"); (7, "again")]%string !! 1
    = Some (false, [PrComment 7 escalation]).
Proof.
  apply (proj2 (feedback_iteration_cap sample_env
                  [(7, "rename x"); (7, "again")]%string 1 7 "again"
                  eq_refl)).
  simpl. lia.
Defined.

End FeedbackProofs.

(* ------------------------------------------------------------------ *)
(** ** Poll cycle *)

Module CycleProofs.
Import Cycle.

Lemma issue_step_trace (acc : results * state) (it : issue_item) :
  trace (snd (issue_step acc it)) = trace (snd acc) ++ [ProcessIssue (issue_number it)].
Proof.
  destruct acc as [r st]. unfold issue_step.
  destruct (issue_outcome it) as [[n|]|m]; [destruct (Nat.eqb n 0)|..];
    reflexivity.
Qed.

Lemma issue_step_errors (acc : results * state) (it : issue_item) :
  errors (fst (issue_step acc it)) =
  errors (fst acc) ++ match issue_outcome it with
                      | Raised m => [issue_error (issue_number it) m]
                      | Returned _ => []
                      end.
Proof.
  destruct acc as [r st]. unfold issue_step.
  destruct (issue_outcome it) as [[n|]|m]; [destruct (Nat.eqb n 0)|..];
    simpl; rewrite ?app_nil_r; reflexivity.
Qed.

Lemma pr_step_trace (acc : results * state) (it : pr_item) :
  trace (snd (pr_step acc it)) = trace (snd acc) ++ [ReviewPr (pr_number it)].
Proof.
  destruct acc as [r st]. unfold pr_step.
  destruct (review_outcome it); reflexivity.
Qed.

Lemma pr_step_errors (acc : results * state) (it : pr_item) :
  errors (fst (pr_step acc it)) =
  errors (fst acc) ++ match review_outcome it with
                      | Raised m => [pr_error (pr_number it) m]
                      | Returned _ => []
                      end.
Proof.
  destruct acc as [r st]. unfold pr_step.
  destruct (review_outcome it); simpl; rewrite ?app_nil_r; reflexivity.
Qed.

(** A left fold whose step appends to a component of the accumulator. *)
Section FoldAppend.
Context {A B C : Type} (step : A -> B -> A) (get : A -> list C) (out : B -> list C).
Hypothesis step_append : forall acc x, get (step acc x) = get acc ++ out x.

Lemma fold_append (l : list B) (acc : A) :
  get (fold_left step l acc) = get acc ++ flat_map out l.
Proof.
  revert acc; induction l as [|x l IH]; intros acc; simpl.
  - rewrite app_nil_r. reflexivity.
  - rewrite IH, step_append, app_assoc. reflexivity.
Qed.

Lemma flat_map_single (f : B -> C) (l : list B) :
  flat_map (fun x => [f x]) l = map f l.
Proof. induction l as [|x l IH]; simpl; [reflexivity | rewrite IH; reflexivity]. Qed.

End FoldAppend.

(** Claim C8: in a poll cycle over the fetched issues and pull requests,
    the cycle returns its results (it has no exceptional outcome), every
    item is processed in order whatever the outcome of the items before
    it, and each item whose processing raised has an error entry naming
    it. *)
Theorem cycle_absorbs_item_failures (st : state) (issues : list issue_item)
  (prs : list pr_item) :
  let res := process_pending_issues st (Returned issues) (Returned prs) in
  trace (snd res) = trace st ++ map (fun it => ProcessIssue (issue_number it)) issues
                             ++ map (fun it => ReviewPr (pr_number it)) prs /\
  (forall it m, In it issues -> issue_outcome it = Raised m ->
     In (issue_error (issue_number it) m) (errors (fst res))) /\
  (forall it m, In it prs -> review_outcome it = Raised m ->
     In (pr_error (pr_number it) m) (errors (fst res))).
Proof.
  intros res.
  set (r0 := {| issues_processed := 0; prs_reviewed := 0; errors := [] |}).
  assert (Hres : res = fold_left pr_step prs (fold_left issue_step issues (r0, st))).
  { subst res. unfold process_pending_issues.
    destruct (fold_left issue_step issues _); reflexivity. }
  pose proof (fold_append issue_step (fun a => trace (snd a))
                (fun it => [ProcessIssue (issue_number it)]) issue_step_trace) as Ti.
  pose proof (fold_append pr_step (fun a => trace (snd a))
                (fun it => [ReviewPr (pr_number it)]) pr_step_trace) as Tp.
  pose proof (fold_append issue_step (fun a => errors (fst a)) _ issue_step_errors) as Ei.
  pose proof (fold_append pr_step (fun a => errors (fst a)) _ pr_step_errors) as Ep.
  cbv beta in Ti, Tp, Ei, Ep.
  rewrite Hres. split; [|split].
  - rewrite Tp, Ti. simpl. rewrite <- app_assoc, !flat_map_single.
    reflexivity.
  - intros it m Hin Hm. rewrite Ep, Ei. apply in_or_app. left.
    apply in_or_app. right. apply in_flat_map. exists it. rewrite Hm. simpl. auto.
  - intros it m Hin Hm. rewrite Ep. apply in_or_app. right.
    apply in_flat_map. exists it. rewrite Hm. simpl. auto.
Qed.

Definition sample_issues : list issue_item :=
  [{| issue_number := 3; issue_outcome := Raised "boom" |};
   {| issue_number := 4; issue_outcome := Returned (Some 10) |}].

Lemma cycle_absorbs_item_failures_witness :
  In (issue_error 3 "boom")
     (errors (fst (process_pending_issues {| processed_issues := ∅; trace := [] |}
                     (Returned sample_issues) (Returned [])))).
Proof.
  apply (proj1 (proj2 (cycle_absorbs_item_failures
                         {| processed_issues := ∅; trace := [] |} sample_issues []))
           {| issue_number := 3; issue_outcome := Raised "boom" |} "boom").
  - left. reflexivity.
  - reflexivity.
Defined.

End CycleProofs.

(* ================================================================== *)
(** * Properties of the remaining code *)

Module PathProofs.
Import Str Paths.

Lemma ceq_iff (a b : ascii) : ceq a b = true <-> a = b.
Proof. unfold ceq. apply Ascii.eqb_eq. Qed.

Lemma startswith_app_l (x y n : list ascii) :
  startswith x n = true -> startswith (x ++ y) n = true.
Proof.
  rewrite !DiscoverProofs.startswith_spec. intros [b ->].
  exists (b ++ y). rewrite app_assoc. reflexivity.
Qed.

Lemma contains_infix (a b c n : list ascii) :
  contains b n = true -> contains (a ++ b ++ c) n = true.
Proof.
  rewrite !DiscoverProofs.contains_spec. intros (u & v & ->).
  exists (a ++ u), (v ++ c). rewrite <- !app_assoc. reflexivity.
Qed.

Lemma contains_single (l : list ascii) (ch : ascii) :
  contains l [ch] = existsb (ceq ch) l.
Proof.
  induction l as [|c l IH]; [reflexivity|].
  cbn [contains existsb]. rewrite IH. simpl. destruct l; rewrite andb_true_r; reflexivity.
Qed.

Lemma contains_single_app (x y : list ascii) (ch : ascii) :
  contains (x ++ y) [ch] = contains x [ch] || contains y [ch].
Proof. rewrite !contains_single. apply existsb_app. Qed.

(** A two-character needle found in [x ++ y] lies in [x], in [y], or
    across the seam. *)
Lemma contains_pair_app (x y : list ascii) (a b : ascii) :
  contains (x ++ y) [a; b] = true ->
  contains x [a; b] = true \/ contains y [a; b] = true \/
  (last x = Some a /\ head y = Some b).
Proof.
  induction x as [|c x IH]; [simpl; auto|].
  cbn [contains app]. rewrite orb_true_iff. intros [Hs | Hc].
  - destruct x as [|d x].
    + simpl in Hs. destruct y as [|e y]; [simpl in Hs; rewrite andb_false_r in Hs; discriminate|].
      simpl in Hs. rewrite !andb_true_iff, !ceq_iff in Hs. destruct Hs as [-> [-> _]].
      right; right. split; reflexivity.
    + left. simpl in Hs. rewrite !andb_true_iff in Hs. destruct Hs as [H1 [H2 _]].
      cbn [contains]. simpl. rewrite H1, H2. destruct x; reflexivity.
  - destruct (IH Hc) as [H | [H | [Hl Hh]]].
    + left. cbn [contains]. rewrite H, orb_true_r. reflexivity.
    + right; left. exact H.
    + right; right. split; [|exact Hh]. destruct x; [discriminate|exact Hl].
Qed.

Lemma endswith_slash (a : list ascii) :
  endswith a (s "/") = true -> exists a', a = a' ++ ["/"%char].
Proof.
  unfold endswith. rewrite DiscoverProofs.startswith_spec. intros [b Hb].
  exists (rev b). rewrite <- (rev_involutive a), Hb. reflexivity.
Qed.

Definition forb (x : list ascii) : bool :=
  existsb (fun ch => contains x [ch]) forbidden_chars.

Lemma forb_app (x y : list ascii) : forb (x ++ y) = forb x || forb y.
Proof.
  unfold forb, forbidden_chars. cbn [existsb]. rewrite !contains_single_app.
  destruct (contains x _), (contains x _), (contains x _),
           (contains y _), (contains y _), (contains y _); reflexivity.
Qed.

Lemma join_dotdot (a b : list ascii) :
  contains a (s "..") = false -> contains b (s "..") = false ->
  contains (join a b) (s "..") = false.
Proof.
  intros Ha Hb. unfold join. change (s "..") with ["."%char; "."%char] in *.
  destruct (startswith b (s "/")); [exact Hb|].
  destruct (is_nil a || endswith a (s "/")) eqn:E.
  - apply not_true_iff_false. intros H. apply contains_pair_app in H.
    destruct H as [H | [H | [Hl Hh]]]; [congruence|congruence|].
    apply orb_true_iff in E as [E | E].
    + destruct a; discriminate.
    + apply endswith_slash in E as [a' ->]. rewrite last_snoc in Hl. discriminate.
  - apply not_true_iff_false. intros H. apply contains_pair_app in H.
    destruct H as [H | [H | [Hl Hh]]]; [congruence| |discriminate].
    change ("/"%char :: b) with (["/"%char] ++ b) in H.
    apply contains_pair_app in H as [H | [H | [Hl Hh]]];
      [discriminate|congruence|discriminate].
Qed.

Lemma join_forb (a b : list ascii) :
  forb a = false -> forb b = false -> forb (join a b) = false.
Proof.
  intros Ha Hb. unfold join.
  destruct (startswith b (s "/")); [exact Hb|].
  destruct (is_nil a || endswith a (s "/")).
  - rewrite forb_app, Ha, Hb. reflexivity.
  - rewrite forb_app, Ha. change ("/"%char :: b) with ([ "/"%char ] ++ b).
    rewrite forb_app, Hb. reflexivity.
Qed.

Lemma startswith_one (c x : ascii) (l : list ascii) :
  startswith (c :: l) [x] = ceq x c.
Proof. simpl. destruct l; apply andb_true_r. Qed.

Lemma join_no_root (a b : list ascii) :
  startswith a (s "/") = false -> startswith b (s "/") = false ->
  startswith (join a b) (s "/") = false.
Proof.
  intros Ha Hb. unfold join. rewrite Hb.
  change (s "/") with ["/"%char] in *.
  destruct a as [|c a]; [exact Hb|].
  destruct (is_nil (c :: a) || endswith (c :: a) ["/"%char]);
    simpl app; rewrite startswith_one in *; exact Ha.
Qed.

(** [join a b] ends in [b]; when [b] ends in [/tn] or is [tn], so does it. *)
Lemma join_tail (a b tn : list ascii) :
  (b = tn \/ exists y, b = y ++ "/"%char :: tn) ->
  join a b = tn \/ exists y, join a b = y ++ "/"%char :: tn.
Proof.
  intros Hb. unfold join.
  destruct (startswith b (s "/")); [exact Hb|].
  destruct (is_nil a || endswith a (s "/")) eqn:E.
  - apply orb_true_iff in E as [E | E].
    + destruct a; [exact Hb|discriminate].
    + apply endswith_slash in E as [a' ->]. right.
      destruct Hb as [-> | [y ->]].
      * exists a'. rewrite <- app_assoc. reflexivity.
      * exists (a' ++ "/"%char :: y). rewrite <- !app_assoc. reflexivity.
  - right. destruct Hb as [-> | [y ->]].
    + exists a. reflexivity.
    + exists (a ++ "/"%char :: y). rewrite <- app_assoc. reflexivity.
Qed.

Lemma to_char_some (ch : ascii) (r acc e b : list ascii) :
  to_char ch acc r = Some (e, b) ->
  exists rpre, r = rpre ++ ch :: b /\ e = rev rpre ++ acc /\ ~ In ch rpre.
Proof.
  revert acc. induction r as [|c r IH]; intros acc; simpl; [discriminate|].
  destruct (ceq c ch) eqn:E.
  - intros [= -> ->]. apply ceq_iff in E as ->. exists []. simpl. auto.
  - intros H. destruct (IH _ H) as (rpre & -> & -> & Hn). exists (c :: rpre).
    split; [reflexivity|]. split.
    + simpl. rewrite <- app_assoc. reflexivity.
    + simpl. intros [-> | Hi]; [rewrite (proj2 (ceq_iff ch ch) eq_refl) in E; discriminate|auto].
Qed.

Lemma to_char_none (ch : ascii) (r acc : list ascii) :
  to_char ch acc r = None -> ~ In ch r.
Proof.
  revert acc. induction r as [|c r IH]; intros acc; simpl; [auto|].
  destruct (ceq c ch) eqn:E; [discriminate|].
  intros H [-> | Hi]; [rewrite (proj2 (ceq_iff ch ch) eq_refl) in E; discriminate|].
  exact (IH _ H Hi).
Qed.

Lemma split_at_last_slash_spec (p : list ascii) :
  p = fst (split_at_last_slash p) ++ basename p /\
  ~ In "/"%char (basename p) /\
  (fst (split_at_last_slash p) = [] \/
   exists h, fst (split_at_last_slash p) = h ++ ["/"%char]).
Proof.
  unfold basename, split_at_last_slash.
  destruct (to_char "/"%char [] (rev p)) as [[tl before]|] eqn:E.
  - apply to_char_some in E as (rpre & Hr & -> & Hn). simpl.
    rewrite app_nil_r. split; [|split].
    + rewrite <- (rev_involutive p), Hr, rev_app_distr. simpl.
      rewrite <- app_assoc. reflexivity.
    + rewrite <- in_rev. exact Hn.
    + right. exists (rev before). reflexivity.
  - apply to_char_none in E. simpl. split; [reflexivity|]. split; [|auto].
    rewrite in_rev. exact E.
Qed.

Lemma lstrip_char_suffix (ch : ascii) (l : list ascii) :
  exists pre, l = pre ++ lstrip_char ch l.
Proof.
  induction l as [|c l IH]; simpl; [exists []; reflexivity|].
  destruct (ceq c ch).
  - destruct IH as [pre Hp]. exists (c :: pre). simpl. rewrite <- Hp. reflexivity.
  - exists []. reflexivity.
Qed.

Lemma dirname_prefix (p : list ascii) : exists rest, p = dirname p ++ rest.
Proof.
  destruct (split_at_last_slash_spec p) as [Hp _].
  unfold dirname. set (head := fst (split_at_last_slash p)) in *.
  destruct (negb (is_nil head) && negb (forallb (ceq "/"%char) head)).
  - destruct (lstrip_char_suffix "/"%char (rev head)) as [pre Hpre].
    exists (rev pre ++ basename p).
    rewrite Hp at 1. rewrite <- (rev_involutive head) at 1. rewrite Hpre at 1.
    rewrite rev_app_distr, <- app_assoc. reflexivity.
  - exists (basename p). exact Hp.
Qed.

(** The base name of a [.py] path ends in [.py]. *)
Lemma basename_py (p : list ascii) :
  endswith p (s ".py") = true ->
  exists z, rev (basename p) = "y"%char :: "p"%char :: "."%char :: z.
Proof.
  destruct (split_at_last_slash_spec p) as [Hp [_ Hh]].
  set (tl := basename p) in *. set (hd := fst (split_at_last_slash p)) in *.
  clearbody tl hd. subst p.
  unfold endswith. change (rev (s ".py")) with ["y"%char; "p"%char; "."%char].
  rewrite rev_app_distr.
  destruct Hh as [-> | [h ->]].
  - rewrite app_nil_r. destruct (rev tl) as [|a [|b [|c z]]];
      cbn [startswith app]; try (rewrite ?andb_false_r; discriminate).
    rewrite !andb_true_iff, !ceq_iff. intros (-> & -> & -> & _). eauto.
  - rewrite rev_app_distr. cbn [rev app].
    destruct (rev tl) as [|a [|b [|c z]]]; cbn [startswith app];
      rewrite ?andb_true_iff, ?ceq_iff;
      try (intros (? & ? & ? & _); discriminate);
      try (intros (? & ? & _); discriminate);
      try (intros (? & _); discriminate).
    intros (-> & -> & -> & _). eauto.
Qed.

Lemma split_go_noslash (cur y : list ascii) :
  ~ In "/"%char y -> split_go cur y = [rev cur ++ y].
Proof.
  revert cur. induction y as [|c y IH]; intros cur Hy; simpl.
  - rewrite app_nil_r. reflexivity.
  - destruct (ceq c "/"%char) eqn:E.
    + apply ceq_iff in E as ->. exfalso. apply Hy. left. reflexivity.
    + rewrite IH by (intros Hi; apply Hy; right; exact Hi).
      simpl. rewrite <- app_assoc. reflexivity.
Qed.

Lemma split_go_slash (cur x y : list ascii) :
  exists l, split_go cur (x ++ "/"%char :: y) = l ++ split_go [] y.
Proof.
  revert cur. induction x as [|c x IH]; intros cur; simpl.
  - exists [rev cur]. reflexivity.
  - destruct (ceq c "/"%char).
    + destruct (IH []) as [l Hl]. exists (rev cur :: l). rewrite Hl. reflexivity.
    + exact (IH (c :: cur)).
Qed.

Lemma path_name_tail (r tn : list ascii) :
  (r = tn \/ exists y, r = y ++ "/"%char :: tn) ->
  ~ In "/"%char tn -> is_nil tn = false -> leq tn (s ".") = false ->
  path_name r = tn.
Proof.
  intros Hr Hn Hnil Hdot. unfold path_name.
  assert (Hs : exists l, split_go [] r = l ++ [tn]).
  { destruct Hr as [-> | [y ->]].
    - exists []. rewrite split_go_noslash by exact Hn. reflexivity.
    - destruct (split_go_slash [] y tn) as [l Hl]. exists l.
      rewrite Hl, split_go_noslash by exact Hn. reflexivity. }
  destruct Hs as [l ->]. rewrite List.filter_app. cbn [List.filter]. rewrite Hnil, Hdot.
  simpl. rewrite last_snoc. reflexivity.
Qed.


Lemma test_path_shape (contents : option (list dir_item)) (p : list ascii) :
  get_test_file_path contents p = s "test_" ++ basename p \/
  exists y, get_test_file_path contents p = y ++ "/"%char :: s "test_" ++ basename p.
Proof.
  unfold get_test_file_path. apply join_tail.
  destruct (is_nil (dirname p)); [left; reflexivity|].
  apply join_tail. left. reflexivity.
Qed.

Lemma validate_parts (p : list ascii) :
  validate_file_path p = true ->
  contains p (s "..") = false /\ startswith p (s "/") = false /\ forb p = false.
Proof.
  unfold validate_file_path, forb.
  destruct (contains p (s "..")); [discriminate|].
  destruct (startswith p (s "/")); [discriminate|].
  destruct (existsb _ forbidden_chars); [discriminate|]. auto.
Qed.

Lemma test_path_valid_core (contents : option (list dir_item)) (p : list ascii) :
  validate_file_path p = true ->
  should_generate_tests p = true ->
  contains (test_root contents) (s "..") = false ->
  startswith (test_root contents) (s "/") = false ->
  existsb (fun ch => contains (test_root contents) [ch]) forbidden_chars = false ->
  validate_file_path (get_test_file_path contents p) = true.
Proof.
  intros Hv Hg Rdd Rsl Rfb. fold (forb (test_root contents)) in Rfb.
  apply validate_parts in Hv as (Pdd & Psl & Pfb).
  unfold should_generate_tests in Hg. rewrite !andb_true_iff in Hg.
  destruct Hg as [[Hpy _] _].
  destruct (split_at_last_slash_spec p) as (Hp & Hb & _).
  destruct (dirname_prefix p) as [rest Hd].
  set (b := basename p) in *. set (d := dirname p) in *.
  set (hd := fst (split_at_last_slash p)) in *.
  (* the directory part *)
  assert (Ddd : contains d (s "..") = false).
  { apply not_true_iff_false. intros H. apply not_true_iff_false in Pdd. apply Pdd.
    rewrite Hd. apply (contains_infix [] d rest). exact H. }
  assert (Dsl : startswith d (s "/") = false).
  { apply not_true_iff_false. intros H. apply not_true_iff_false in Psl. apply Psl.
    rewrite Hd. apply startswith_app_l. exact H. }
  assert (Dfb : forb d = false).
  { rewrite Hd, forb_app in Pfb. apply orb_false_iff in Pfb. tauto. }
  (* the file name part *)
  assert (Bdd : contains b (s "..") = false).
  { apply not_true_iff_false. intros H. apply not_true_iff_false in Pdd. apply Pdd.
    rewrite Hp, <- (app_nil_r b). apply contains_infix. exact H. }
  assert (Bfb : forb b = false).
  { rewrite Hp, forb_app in Pfb. apply orb_false_iff in Pfb. tauto. }
  set (tn := s "test_" ++ b).
  assert (Tdd : contains tn (s "..") = false).
  { apply not_true_iff_false. intros H. change (s "..") with ["."%char; "."%char] in *.
    apply contains_pair_app in H as [H | [H | [H _]]];
      [discriminate|congruence|discriminate]. }
  assert (Tsl : startswith tn (s "/") = false) by reflexivity.
  assert (Tfb : forb tn = false) by (unfold tn; rewrite forb_app, Bfb; reflexivity).
  assert (Idd : contains (if is_nil d then tn else join d tn) (s "..") = false)
    by (destruct (is_nil d); [exact Tdd | apply join_dotdot; assumption]).
  assert (Isl : startswith (if is_nil d then tn else join d tn) (s "/") = false)
    by (destruct (is_nil d); [exact Tsl | apply join_no_root; assumption]).
  assert (Ifb : forb (if is_nil d then tn else join d tn) = false)
    by (destruct (is_nil d); [exact Tfb | apply join_forb; assumption]).
  (* the extension *)
  assert (Hname : path_name (get_test_file_path contents p) = tn).
  { apply path_name_tail; [apply test_path_shape| |reflexivity|reflexivity].
    unfold tn. rewrite in_app_iff. intros [H | H]; [simpl in H; intuition discriminate|].
    exact (Hb H). }
  assert (Hsuf : suffix tn = s ".py").
  { destruct (basename_py p Hpy) as [z Hz]. unfold suffix, tn.
    rewrite rev_app_distr. fold b in Hz. rewrite Hz. simpl.
    destruct z; reflexivity. }
  unfold validate_file_path. unfold get_test_file_path at 1 2 3.
  fold d b. fold tn.
  rewrite (join_dotdot _ _ Rdd Idd), (join_no_root _ _ Rsl Isl).
  change (existsb _ forbidden_chars) with (forb (join (test_root contents)
            (if is_nil d then tn else join d tn))).
  rewrite (join_forb _ _ Rfb Ifb).
  change (join (test_root contents) (if is_nil d then tn else join d tn))
    with (get_test_file_path contents p).
  rewrite Hname, Hsuf. reflexivity.
Qed.

(** A source file that [_implement_changes] writes and for which
    tests are generated gets a test file whose path also passes
    [validate_file_path], when the test directory found in the repository
    (or the default [tests]) has no [..], no leading [/] and none of
    [~ $ `]. *)
Theorem test_file_path_valid (contents : option (list dir_item)) (p : list ascii) :
  validate_file_path p = true ->
  should_generate_tests p = true ->
  contains (test_root contents) (s "..") = false ->
  startswith (test_root contents) (s "/") = false ->
  existsb (fun ch => contains (test_root contents) [ch]) forbidden_chars = false ->
  validate_file_path (get_test_file_path contents p) = true.
Proof. exact (test_path_valid_core contents p). Qed.

Definition sample_root : option (list dir_item) :=
  Some [{| di_type := s "dir"; di_name := s "unit_tests"; di_path := s "unit_tests" |}].

Lemma test_file_path_valid_witness :
  validate_file_path (get_test_file_path sample_root (s "src/app.py")) = true.
Proof.
  apply test_file_path_valid; vm_compute; reflexivity.
Defined.

(** A path produced by [_get_test_file_path] never qualifies for
    test generation itself, whatever the source path and directory
    listing: generated tests never get tests of their own. *)
Theorem test_file_path_no_tests (contents : option (list dir_item)) (p : list ascii) :
  should_generate_tests (get_test_file_path contents p) = false.
Proof.
  unfold should_generate_tests.
  enough (H : contains (lower (get_test_file_path contents p)) (s "test") = true)
    by (rewrite H, andb_false_r; reflexivity).
  apply DiscoverProofs.contains_spec.
  destruct (test_path_shape contents p) as [-> | [y ->]]; unfold lower.
  - exists [], ("_"%char :: map lower_char (basename p)). reflexivity.
  - exists (map lower_char y ++ ["/"%char]), ("_"%char :: map lower_char (basename p)).
    rewrite map_app, <- app_assoc. reflexivity.
Qed.

Lemma similar_go_spec (ext fp : list ascii) (items found : list (list ascii)) :
  length found < 3 ->
  exists r, similar_go ext fp found items = found ++ r /\ (r `sublist_of` items) /\
    length (found ++ r) <= 3 /\
    Forall (fun x => endswith x ext = true /\ leq x fp = false) r.
Proof.
  revert found. induction items as [|it rest IH]; intros found Hf; cbn [similar_go].
  - exists []. rewrite app_nil_r. split; [reflexivity|]. split; [constructor|].
    split; [lia|constructor].
  - destruct (endswith it ext && negb (leq it fp)) eqn:E.
    + apply andb_true_iff in E as [E1 E2]. apply negb_true_iff in E2.
      rewrite length_app. cbn [length].
      destruct (3 <=? length found + 1) eqn:L.
      * exists [it]. split; [reflexivity|]. split.
        { apply sublist_skip, sublist_nil_l. }
        split; [rewrite length_app; simpl; lia|]. constructor; [auto|constructor].
      * apply Nat.leb_gt in L.
        destruct (IH (found ++ [it])) as (r & Hr & Hs & Hl & Hall);
          [rewrite length_app; simpl; lia|].
        exists (it :: r). rewrite Hr, <- app_assoc. split; [reflexivity|].
        split; [apply sublist_skip; exact Hs|].
        split; [rewrite <- app_assoc in Hl; exact Hl|]. constructor; auto.
    + destruct (IH found Hf) as (r & Hr & Hs & Hl & Hall). exists r.
      split; [exact Hr|]. split; [apply sublist_cons; exact Hs|]. auto.
Qed.

(** [_get_similar_files] returns at most three paths of the
    repository tree, in tree order, each ending with the suffix of the
    given path and different from it. *)
Theorem similar_files_spec (tree : option (list (list ascii))) (fp : list ascii) :
  let r := get_similar_files tree fp in
  length r <= 3 /\ (r `sublist_of` from_option id [] tree) /\
  Forall (fun x => endswith x (suffix (path_name fp)) = true /\ leq x fp = false) r.
Proof.
  unfold get_similar_files. destruct tree as [[|i items]|];
    try (split; [simpl; lia|split; [constructor|constructor]]).
  destruct (similar_go_spec (suffix (path_name fp)) fp (i :: items) [])
    as (r & Hr & Hs & Hl & Hall); [simpl; lia|].
  cbv zeta. rewrite Hr. simpl. auto.
Qed.

End PathProofs.

Module QualityProofs.
Import Str Quality.

(** The PR body line of a tool reads [Passed] only when the tool is
    enabled, the clone succeeded, some changed file ends in [.py] and the
    tool exited with code 0. In particular a disabled tool and a skipped
    or failed run are reported as [Failed]. *)
Theorem quality_passed_requires (S : qc_settings) (changed_files : list (list ascii))
  (clone : clone_outcome) (run : tool -> run_outcome) (t : tool) :
  PrText.passed_text (passed (run_code_quality_checks S changed_files clone run) t)
    = s "Passed" ->
  enabled S t = true /\ clone = CloneRan 0 /\
  (exists f, In f changed_files /\ endswith f (s ".py") = true) /\ run t = Ran 0.
Proof.
  unfold run_code_quality_checks.
  destruct (negb (use_ruff S) && negb (use_black S) && negb (use_mypy S)).
  { destruct t; discriminate. }
  destruct clone as [rc| |]; [|destruct t; discriminate..].
  destruct (negb (Z.eqb rc 0)) eqn:Erc; [destruct t; discriminate|].
  apply negb_false_iff, Z.eqb_eq in Erc as ->.
  intros H. assert (Hf : tool_flag S changed_files run t = true).
  { destruct (tool_flag S changed_files run t) eqn:E; [reflexivity|].
    destruct t; cbn [passed ruff_passed black_passed mypy_passed] in H;
      rewrite E in H; discriminate. }
  unfold tool_flag in Hf.
  destruct (enabled S t) eqn:Ee; cbn [andb] in Hf; [|discriminate].
  destruct (Paths.is_nil changed_files); cbn [negb] in Hf; [discriminate|].
  destruct (List.filter (fun f => endswith f (s ".py")) changed_files) as [|f fs] eqn:Ef;
    cbn [Paths.is_nil negb] in Hf; [discriminate|].
  assert (Hin : In f (List.filter (fun f => endswith f (s ".py")) changed_files))
    by (rewrite Ef; left; reflexivity).
  apply filter_In in Hin.
  destruct (run t) as [rc'|] eqn:Er; [|discriminate].
  apply Z.eqb_eq in Hf as ->. eauto.
Qed.

Lemma quality_passed_requires_witness :
  PrText.passed_text
    (passed (run_code_quality_checks {| use_ruff := true; use_black := false;
                                        use_mypy := false |}
               [s "src/app.py"] (CloneRan 0) (fun _ => Ran 0)) Ruff) = s "Passed" /\
  enabled {| use_ruff := true; use_black := false; use_mypy := false |} Ruff = true.
Proof.
  split; [reflexivity|].
  apply (quality_passed_requires {| use_ruff := true; use_black := false;
                                    use_mypy := false |}
           [s "src/app.py"] (CloneRan 0) (fun _ => Ran 0) Ruff).
  reflexivity.
Defined.

End QualityProofs.

Module ImplementProofs.
Import Str Paths Implement.

Lemma implement_file_writes (E : impl_env) (f : list ascii) :
  (forall g, contains (test_root (ie_contents E g)) (s "..") = false /\
             startswith (test_root (ie_contents E g)) (s "/") = false /\
             existsb (fun ch => contains (test_root (ie_contents E g)) [ch])
               forbidden_chars = false) ->
  forall w, In w (fst (implement_file E f)) ->
  validate_file_path (fst w) = true /\
  (fst w = f \/ fst w = get_test_file_path (ie_contents E f) f).
Proof.
  intros Hroot w. unfold implement_file.
  destruct (validate_file_path f) eqn:Hv; [|simpl; tauto].
  set (nc0 := match ie_content E f with
              | Some c => ie_modify E f c | None => ie_create E f end).
  set (act := match ie_content E f with Some _ => s "Modified" | None => s "Created" end).
  destruct nc0 as [nc|]; [|simpl; tauto].
  destruct (negb (ie_write_ok E f nc)); [simpl; tauto|].
  cbv zeta.
  assert (Hmain : In w [(f, nc)] -> validate_file_path (fst w) = true /\
            (fst w = f \/ fst w = get_test_file_path (ie_contents E f) f)).
  { intros [<- | []]. simpl. auto. }
  destruct (should_generate_tests f) eqn:Hg; [|exact Hmain].
  destruct (ie_tests E f nc) as [tc|]; [|exact Hmain].
  destruct (is_nil tc); [exact Hmain|].
  destruct (ie_write_ok E _ tc); [|exact Hmain].
  simpl fst. intros [<- | [<- | []]]; [apply Hmain; left; reflexivity|].
  simpl. split; [|right; reflexivity].
  destruct (Hroot f) as (R1 & R2 & R3).
  exact (PathProofs.test_path_valid_core _ _ Hv Hg R1 R2 R3).
Qed.

Lemma implement_all_writes (E : impl_env) (files : list (list ascii)) :
  fst (implement_all E files) = flat_map (fun f => fst (implement_file E f)) files.
Proof.
  unfold implement_all.
  apply (CycleProofs.fold_append _ fst (fun f => fst (implement_file E f))).
  intros acc x. reflexivity.
Qed.

Lemma implement_all_changes (E : impl_env) (files : list (list ascii)) :
  snd (implement_all E files) = flat_map (fun f => snd (implement_file E f)) files.
Proof.
  unfold implement_all.
  apply (CycleProofs.fold_append _ snd (fun f => snd (implement_file E f))).
  intros acc x. reflexivity.
Qed.

(** Every file [_implement_changes] commits passes [validate_file_path] and
    is either one of [files_to_modify] or the test file computed for one of
    them, provided the test directories the listing can yield are free of
    [..], leading [/] and [~ $ `]. *)
Theorem implement_writes_valid_paths (E : impl_env) (files : list (list ascii)) :
  (forall g, contains (test_root (ie_contents E g)) (s "..") = false /\
             startswith (test_root (ie_contents E g)) (s "/") = false /\
             existsb (fun ch => contains (test_root (ie_contents E g)) [ch])
               forbidden_chars = false) ->
  forall w, In w (fst (implement_all E files)) ->
  validate_file_path (fst w) = true /\
  (In (fst w) files \/
   exists f, In f files /\ fst w = get_test_file_path (ie_contents E f) f).
Proof.
  intros Hroot w. rewrite implement_all_writes, in_flat_map.
  intros (f & Hf & Hw).
  destruct (implement_file_writes E f Hroot w Hw) as [Hv [Heq | Heq]].
  - split; [exact Hv|]. left. rewrite Heq. exact Hf.
  - split; [exact Hv|]. right. exists f. auto.
Qed.

Definition sample_impl_env : impl_env := {|
  ie_content := fun _ => None;
  ie_modify := fun _ c => Some c;
  ie_create := fun _ => Some (s "print(1)");
  ie_write_ok := fun _ _ => true;
  ie_tests := fun _ _ => Some (s "def test_app(): pass");
  ie_contents := fun _ => None
|}.

Lemma implement_writes_valid_paths_witness :
  In (s "tests/src/test_app.py", s "def test_app(): pass")
     (fst (implement_all sample_impl_env [s "src/app.py"; s "../etc/passwd"])) /\
  validate_file_path (s "tests/src/test_app.py") = true.
Proof.
  split; [vm_compute; right; left; reflexivity|].
  apply (implement_writes_valid_paths sample_impl_env [s "src/app.py"; s "../etc/passwd"])
    with (w := (s "tests/src/test_app.py", s "def test_app(): pass")).
  - intros g. vm_compute. auto.
  - vm_compute. right. left. reflexivity.
Defined.

Lemma implement_file_lengths (E : impl_env) (f : list ascii) :
  length (fst (implement_file E f)) = length (snd (implement_file E f)).
Proof.
  unfold implement_file.
  destruct (validate_file_path f); [|reflexivity].
  destruct (match ie_content E f with Some c => ie_modify E f c
            | None => ie_create E f end) as [nc|]; [|reflexivity].
  destruct (negb (ie_write_ok E f nc)); [reflexivity|]. cbv zeta.
  destruct (should_generate_tests f); [|reflexivity].
  destruct (ie_tests E f nc) as [tc|]; [|reflexivity].
  destruct (is_nil tc); [reflexivity|].
  destruct (ie_write_ok E _ tc); reflexivity.
Qed.

Lemma implement_file_lines (E : impl_env) (f : list ascii) :
  forall l, In l (snd (implement_file E f)) ->
  exists c t, l = c :: t /\ c <> "N"%char.
Proof.
  intros l. unfold implement_file.
  destruct (validate_file_path f); [|simpl; tauto].
  destruct (match ie_content E f with Some c => ie_modify E f c
            | None => ie_create E f end) as [nc|]; [|simpl; tauto].
  destruct (negb (ie_write_ok E f nc)); [simpl; tauto|]. cbv zeta.
  assert (Hmain : In l [match ie_content E f with Some _ => s "Modified"
                        | None => s "Created" end ++ s ": " ++ f] ->
                  exists c t, l = c :: t /\ c <> "N"%char).
  { intros [<- | []]. destruct (ie_content E f); simpl; eauto; discriminate. }
  destruct (should_generate_tests f); [|exact Hmain].
  destruct (ie_tests E f nc) as [tc|]; [|exact Hmain].
  destruct (is_nil tc); [exact Hmain|].
  destruct (ie_write_ok E _ tc); [|exact Hmain].
  simpl snd. intros [<- | [<- | []]]; [apply Hmain; left; reflexivity|].
  simpl. eauto. 
Qed.

(** The summary returned by [_implement_changes] is ["No changes were
    made"] exactly when no file was committed. *)
Theorem implement_summary_no_changes (E : impl_env) (files : list (list ascii)) :
  implement_changes E files = s "No changes were made" <->
  fst (implement_all E files) = [].
Proof.
  assert (Hlen : length (fst (implement_all E files)) =
                 length (snd (implement_all E files))).
  { rewrite implement_all_writes, implement_all_changes.
    induction files as [|f fs IH]; [reflexivity|].
    simpl. rewrite !length_app, IH, implement_file_lengths. reflexivity. }
  unfold implement_changes.
  destruct (snd (implement_all E files)) as [|l ls] eqn:Ec.
  - simpl. split; [intros _|reflexivity]. apply length_zero_iff_nil. exact Hlen.
  - simpl. split; [|intros Hw; rewrite Hw in Hlen; discriminate].
    assert (Hl : In l (snd (implement_all E files))) by (rewrite Ec; left; reflexivity).
    rewrite implement_all_changes, in_flat_map in Hl. destruct Hl as (f & _ & Hl).
    destruct (implement_file_lines E f l Hl) as (c & t & -> & Hc).
    intros H. simpl in H. injection H as H _. exact (False_ind _ (Hc H)).
Qed.

End ImplementProofs.

Module PrTextProofs.
Import Str Quality Implement PrText.

Lemma char_digit (m : N) :
  (m < 10)%N ->
  Interp.is_digit (pretty_N_char m) = true /\
  Interp.digit_val (pretty_N_char m) = Z.of_N m.
Proof.
  intros Hm.
  assert (m = 0 \/ m = 1 \/ m = 2 \/ m = 3 \/ m = 4 \/ m = 5 \/ m = 6 \/
          m = 7 \/ m = 8 \/ m = 9)%N as Hc by lia.
  repeat destruct Hc as [-> | Hc]; try (subst; split; reflexivity).
Qed.

Lemma digits_stop (acc : Z) (t : list ascii) :
  match t with c :: _ => Interp.is_digit c = false | [] => True end ->
  Interp.digits acc t = (acc, t).
Proof. destruct t as [|c t]; simpl; [reflexivity|]. intros ->. reflexivity. Qed.

(** The digits [pretty_N_go x] prepends, read back by the decimal scan. *)
Lemma pretty_go_digits (x : N) (s0 : string) :
  exists D, list_ascii_of_string (pretty_N_go x s0) = D ++ list_ascii_of_string s0 /\
    ((0 < x)%N -> D <> []) /\ (forall d, In d D -> Interp.is_digit d = true) /\
    forall acc t, Interp.digits acc (D ++ t) =
                  Interp.digits (acc * 10 ^ Z.of_nat (length D) + Z.of_N x)%Z t.
Proof.
  revert s0. induction (N.lt_wf_0 x) as [x _ IH]; intros s0.
  destruct (decide (x = 0%N)) as [-> | Hx].
  - exists []. rewrite pretty_N_go_0. split; [reflexivity|]. split; [lia|].
    split; [intros d []|]. intros acc t. simpl.
    rewrite Z.mul_1_r, Z.add_0_r. reflexivity.
  - rewrite pretty_N_go_step by lia.
    destruct (IH (x / 10)%N (N.div_lt x 10 ltac:(lia) ltac:(lia))
                 (String (pretty_N_char (x mod 10)) s0)) as (D & HD & _ & Hdig & Hval).
    destruct (char_digit (x mod 10)%N (N.mod_lt x 10 ltac:(lia))) as [Hc Hv].
    exists (D ++ [pretty_N_char (x mod 10)]). split; [|split; [|split]].
    + rewrite HD, <- app_assoc. reflexivity.
    + intros _ H. destruct D; discriminate.
    + intros d Hd. apply in_app_or in Hd as [Hd | [<- | []]]; auto.
    + intros acc t. rewrite <- app_assoc, Hval. simpl. rewrite Hc, Hv.
      f_equal. rewrite length_app. simpl.
      rewrite Nat2Z.inj_add, Z.pow_add_r by lia.
      assert (Hx' : Z.of_N x = (10 * Z.of_N (x / 10) + Z.of_N (x mod 10))%Z).
      { pose proof (N.div_mod x 10 ltac:(lia)). lia. }
      rewrite Hx'. change (Z.of_nat 1) with 1%Z. rewrite Z.pow_1_r. lia.
Qed.

Lemma pretty_nat_digits (n : nat) :
  exists d D, s (pretty n) = d :: D /\ Interp.is_digit d = true /\
    forall t, match t with c :: _ => Interp.is_digit c = false | [] => True end ->
              Interp.digits 0 (d :: D ++ t) = (Z.of_nat n, t).
Proof.
  unfold pretty, pretty_nat, pretty, pretty_N.
  destruct (decide (N.of_nat n = 0%N)) as [Hn | Hn].
  - exists "0"%char, []. split; [reflexivity|]. split; [reflexivity|].
    intros t Ht. simpl. rewrite digits_stop by exact Ht.
    change (Interp.digit_val "0"%char) with 0%Z. f_equal. lia.
  - destruct (pretty_go_digits (N.of_nat n) EmptyString) as (D & HD & Hne & Hdig & Hval).
    destruct D as [|d D]; [destruct (Hne ltac:(lia) eq_refl)|].
    exists d, D. unfold s. rewrite HD, app_nil_r. split; [reflexivity|].
    split; [apply Hdig; left; reflexivity|].
    intros t Ht. change (d :: D ++ t) with ((d :: D) ++ t).
    rewrite Hval, digits_stop by exact Ht. f_equal. lia.
Qed.

(** [_extract_issue_number] reads back, from the body written by
    [_create_pull_request], the number of the issue the pull request
    implements: the first reference in the body is the one after
    "Implements", whatever the branch name, change summary and quality
    report. *)
Theorem pr_body_issue_roundtrip (issue_number : nat) (branch_name changes_summary : list ascii)
  (quality_report : qc_report) :
  extract_issue_number
    (Some (pr_body issue_number branch_name changes_summary quality_report))
  = Some (Z.of_nat issue_number).
Proof.
  destruct (pretty_nat_digits issue_number) as (d & D & Hp & Hd & Hval).
  unfold pr_body. rewrite Hp.
  set (rest := [nl] ++ [nl] ++ s "## Changes Made" ++ _).
  change (extract_issue_number (Some (s "## Summary" ++ [nl] ++ s "Implements #" ++ (d :: D) ++ rest)))
    with (search_issue_ref ("#"%char :: d :: D ++ rest)).
  cbn [search_issue_ref]. rewrite Hd. cbn [fst].
  rewrite Hval by reflexivity. reflexivity.
Qed.

(** The diff text handed to the reviewing model is never empty, is at most
    15015 characters long, and starts with the first 15000 characters of
    the pull request diff whenever that diff is non-empty. *)
Theorem review_diff_bounds (diff_content : list ascii) :
  review_diff diff_content <> [] /\ length (review_diff diff_content) <= 15015 /\
  (take 15000 (review_diff diff_content) = take 15000 diff_content \/ diff_content = []).
Proof.
  (* large literals are opaque to [lia]; spell them as products *)
  assert (E1 : 15000 = 15 * 1000) by reflexivity.
  assert (E2 : 15015 = 15 * 1000 + 15) by reflexivity.
  unfold review_diff. rewrite !E1, E2.
  destruct (15 * 1000 <? length diff_content) eqn:E.
  - apply Nat.ltb_lt in E.
    assert (Ht : length (take (15 * 1000) diff_content) = 15 * 1000)
      by (unfold take; apply firstn_length_le; lia).
    assert (Hs : length ([nl] ++ s "...[truncated]") = 15) by reflexivity.
    split; [|split].
    + intros H. apply (f_equal (@length ascii)) in H. rewrite length_app, Ht, Hs in H.
      cbn [length] in H. lia.
    + rewrite length_app, Ht, Hs. lia.
    + left. unfold take at 1. rewrite firstn_app, Ht, Nat.sub_diag.
      unfold take. rewrite firstn_firstn, Nat.min_id. cbn [firstn]. apply app_nil_r.
  - apply Nat.ltb_ge in E.
    destruct (Paths.is_nil diff_content) eqn:En.
    + split; [discriminate|]. split; [change (length (s "No diff available")) with 17; lia|].
      right. destruct diff_content; [reflexivity|discriminate].
    + split; [destruct diff_content; discriminate|]. split; [lia|].
      left. reflexivity.
Qed.

End PrTextProofs.

Module ReviewFlowProofs.
Import Str Interp Review ReviewFlow.

Lemma merges_meets (j : json) (ci : CI.ci_result) :
  merges j ci = true -> get (rr_meets_requirements (view j)) false = true.
Proof. unfold merges. rewrite andb_true_iff. tauto. Qed.

Lemma fallback_not_meets (response : list ascii) :
  rr_meets_requirements (view (fallback_review response)) = Some false.
Proof. reflexivity. Qed.

Lemma error_not_meets :
  rr_meets_requirements (view error_review) = Some false.
Proof. reflexivity. Qed.

(** [review_pull_request] merges only after a model answer from which a
    brace-delimited span was cut and decoded by [json.loads], whatever
    [json.loads] does on other texts: the fallback record built from an
    undecodable answer, and the record of a failed model call or of another
    exception of [json.loads], never lead to a merge, whatever the answer
    says and whatever the CI status. *)
Theorem merge_needs_decoded_review (loads : list ascii -> loads_result)
  (o : llm_outcome) (ci : CI.ci_result) :
  merges (perform_llm_review loads o) ci = true ->
  exists response span, o = Generated response /\ regex_span response = Some span /\
    loads span = Loaded (perform_llm_review loads o).
Proof.
  intros H. apply merges_meets in H.
  destruct o as [response|];
    [|unfold perform_llm_review in H; rewrite error_not_meets in H; discriminate].
  unfold perform_llm_review in *.
  destruct (regex_span response) as [span|] eqn:Es;
    [|rewrite fallback_not_meets in H; discriminate].
  destruct (loads span) as [v|[| |]] eqn:Ej;
    [|rewrite fallback_not_meets in H; discriminate
     |rewrite error_not_meets in H; discriminate
     |rewrite error_not_meets in H; discriminate].
  exists response, span. auto.
Qed.

Definition approving_answer : list ascii :=
  s "Review: " ++ q "{'status': 'approved', 'meets_requirements': true}".

Definition green_ci : CI.ci_result :=
  {| CI.success := true; CI.jobs := []; CI.details := EmptyString |}.

Lemma merge_needs_decoded_review_witness :
  merges (perform_llm_review sample_loads (Generated approving_answer)) green_ci = true /\
  exists response span, Generated approving_answer = Generated response /\
    regex_span response = Some span /\
    sample_loads span =
      Loaded (perform_llm_review sample_loads (Generated approving_answer)).
Proof.
  assert (H : merges (perform_llm_review sample_loads (Generated approving_answer))
                green_ci = true)
    by (vm_compute; reflexivity).
  split; [exact H|]. exact (merge_needs_decoded_review _ _ _ H).
Defined.

Lemma merge_decision (r : review_results) (ci : ci_status_view) :
  String.eqb (determine_next_action r ci) "merge" = true ->
  rr_status r = Some "approved"%string /\ get (rr_meets_requirements r) false = true /\
  get (ci_success_key ci) false = true.
Proof.
  unfold determine_next_action.
  destruct (get (rr_meets_requirements r) false); simpl;
  destruct (rr_status r) as [st|]; simpl;
  destruct (get (ci_success_key ci) false); simpl;
  try (destruct (String.eqb st "approved") eqn:Est; simpl);
  try discriminate;
  try (apply String.eqb_eq in Est; subst; auto).
Qed.

(** When [review_pull_request] merges, [_post_review_feedback] has just
    labelled the pull request [approved] and the CI aggregate was a
    success. *)
Theorem merge_implies_approved (j : json) (ci : CI.ci_result) :
  merges j ci = true ->
  review_label j = "approved"%string /\ CI.success ci = true.
Proof.
  unfold merges, review_label. rewrite andb_true_iff. intros [H _].
  apply merge_decision in H as (Hs & Hm & Hc).
  unfold Labels.review_outcome_label. rewrite Hs.
  split; [|exact Hc].
  destruct (rr_meets_requirements (view j)) as [b|]; [|discriminate].
  simpl in Hm. rewrite Hm. reflexivity.
Qed.

Lemma merge_implies_approved_witness :
  review_label (perform_llm_review sample_loads (Generated approving_answer))
    = "approved"%string /\
  CI.success green_ci = true.
Proof.
  apply merge_implies_approved. vm_compute. reflexivity.
Defined.

End ReviewFlowProofs.

Module IntakeProofs.
Import Labels Intake.

Lemma new_issues_go_spec (clock : nat -> Z) (issues : list item) :
  forall k0 P,
  Forall (fun it => exists j c, issues !! j = Some it /\ (it_number it ∉ P) /\
            has_skip_label (it_entity it) = false /\ it_time it = Some c /\
            (clock (k0 + j)%nat - c < 24 * hour)%Z)
         (fst (new_issues_go clock k0 P issues)) /\
  P ⊆ snd (new_issues_go clock k0 P issues) /\
  Forall (fun it => has_skip_label (it_entity it) = true ->
                    it_number it ∈ snd (new_issues_go clock k0 P issues)) issues.
Proof.
  induction issues as [|it rest IH]; intros k0 P; simpl.
  - split; [constructor|]. split; [set_solver|constructor].
  - destruct (bool_decide (it_number it ∈ P)) eqn:Hp.
    + apply bool_decide_eq_true in Hp.
      destruct (IH (S k0) P) as (Ho & Hs & Hk). split; [|split].
      * eapply Forall_impl; [exact Ho|]. intros x (j & c & ? & ? & ? & ? & ?).
        exists (S j), c. rewrite Nat.add_succ_r. auto.
      * exact Hs.
      * constructor; [intros _; apply Hs; exact Hp|exact Hk].
    + apply bool_decide_eq_false in Hp.
      destruct (has_skip_label (it_entity it)) eqn:Hl.
      * destruct (IH (S k0) ({[it_number it]} ∪ P)) as (Ho & Hs & Hk). split; [|split].
        -- eapply Forall_impl; [exact Ho|]. intros x (j & c & ? & Hn & ? & ? & ?).
           exists (S j), c. rewrite Nat.add_succ_r. repeat split; auto. set_solver.
        -- set_solver.
        -- constructor; [intros _; apply Hs; set_solver|exact Hk].
      * destruct (IH (S k0) P) as (Ho & Hs & Hk).
        destruct (new_issues_go clock (S k0) P rest) as [out P'] eqn:Hg. simpl in *.
        assert (Hrest : Forall (fun it0 => exists j c, (it :: rest) !! j = Some it0 /\
                  (it_number it0 ∉ P) /\ has_skip_label (it_entity it0) = false /\
                  it_time it0 = Some c /\ (clock (k0 + j)%nat - c < 24 * hour)%Z) out).
        { eapply Forall_impl; [exact Ho|]. intros x (j & c & ? & ? & ? & ? & ?).
          exists (S j), c. rewrite Nat.add_succ_r. auto. }
        assert (Hk' : Forall (fun it0 => has_skip_label (it_entity it0) = true ->
                                         it_number it0 ∈ P') (it :: rest))
          by (constructor; [rewrite Hl; discriminate|exact Hk]).
        destruct (it_time it) as [c|] eqn:Ht; [|simpl; auto].
        destruct (clock k0 - c <? 24 * hour)%Z eqn:Hc; simpl; [|auto].
        split; [|auto]. constructor; [|exact Hrest].
        exists 0, c. rewrite Nat.add_0_r. apply Z.ltb_lt in Hc. auto.
Qed.

(** [_get_new_issues] returns issues of the fetched list that were not in
    [processed_issues], carry none of the labels [in-progress],
    [processed] and [agent-handled], and were created less than 24 hours
    before the clock reading taken for them; the set only grows, and
    every fetched issue carrying one of those labels ends up in it. *)
Theorem new_issues_selection (clock : nat -> Z) (P : gset nat) (issues : list item) :
  Forall (fun it => exists j c, issues !! j = Some it /\ (it_number it ∉ P) /\
            has_skip_label (it_entity it) = false /\ it_time it = Some c /\
            (clock j - c < 24 * hour)%Z)
         (fst (get_new_issues clock P issues)) /\
  P ⊆ snd (get_new_issues clock P issues) /\
  Forall (fun it => has_skip_label (it_entity it) = true ->
                    it_number it ∈ snd (get_new_issues clock P issues)) issues.
Proof. exact (new_issues_go_spec clock issues 0 P). Qed.

Lemma new_issues_go_includes (clock : nat -> Z) (issues : list item) :
  forall k0 P j it c,
  NoDup (map it_number issues) -> issues !! j = Some it ->
  it_number it ∉ P -> has_skip_label (it_entity it) = false ->
  it_time it = Some c -> (clock (k0 + j)%nat - c < 24 * hour)%Z ->
  In it (fst (new_issues_go clock k0 P issues)).
Proof.
  induction issues as [|h rest IH]; intros k0 P j it c Hnd Hj Hn Hs Ht Hc;
    [discriminate|].
  simpl in Hnd. apply NoDup_cons in Hnd as [Hh Hnd]. simpl.
  destruct j as [|j].
  - simpl in Hj. injection Hj as ->.
    rewrite (bool_decide_eq_false_2 _ Hn), Hs.
    destruct (new_issues_go clock (S k0) P rest) as [out P']. rewrite Ht.
    rewrite Nat.add_0_r in Hc. apply Z.ltb_lt in Hc. rewrite Hc. left. reflexivity.
  - simpl in Hj. rewrite Nat.add_succ_r in Hc.
    assert (Hne : it_number h <> it_number it).
    { intros He. apply Hh. apply list_elem_of_In. rewrite He. apply in_map.
      apply list_elem_of_In. eapply list_elem_of_lookup_2. exact Hj. }
    destruct (bool_decide (it_number h ∈ P)); [eapply IH; eauto|].
    destruct (has_skip_label (it_entity h)).
    + eapply IH; eauto. set_solver.
    + pose proof (IH (S k0) P j it c Hnd Hj Hn Hs Ht Hc) as Hin.
      destruct (new_issues_go clock (S k0) P rest) as [out P'].
      simpl in Hin. destruct (it_time h) as [ch|]; [|exact Hin].
      destruct (clock k0 - ch <? 24 * hour)%Z; [right|]; exact Hin.
Qed.

(** An issue that [process_issue] leaves labelled [blocked] (its
    [except] branch calls [update_issue_status(..., "blocked", ...)]) and
    that is not in [processed_issues] is fetched again by
    [_get_new_issues] as long as it is younger than 24 hours, unless it
    also carries [processed] or [agent-handled]: the [blocked] label does
    not stop retries. *)
Theorem blocked_issue_retried (clock : nat -> Z) (P : gset nat) (issues : list item)
  (k : nat) (it : item) (e : entity) (msg : string) (c : Z) :
  NoDup (map it_number issues) ->
  issues !! k = Some it ->
  it_entity it = update_issue_status e "blocked" msg ->
  "processed"%string ∉ labels e -> "agent-handled"%string ∉ labels e ->
  it_number it ∉ P ->
  it_time it = Some c -> (clock k - c < 24 * hour)%Z ->
  In it (fst (get_new_issues clock P issues)).
Proof.
  intros Hnd Hk He Hp Ha Hn Ht Hc.
  apply (new_issues_go_includes clock issues 0 P k it c); auto.
  rewrite He. unfold has_skip_label, skip_labels, update_issue_status.
  destruct (String.eqb msg EmptyString); simpl;
  repeat rewrite bool_decide_eq_false_2; try reflexivity;
  unfold status_labels; rewrite list_to_set_cons; set_solver.
Qed.

Definition sample_blocked : item :=
  {| it_number := 5;
     it_entity := update_issue_status {| labels := {[ "bug"%string ]}; comments := [] |}
                    "blocked" "Error during processing: timeout";
     it_time := Some 0%Z |}.

Lemma blocked_issue_retried_witness :
  In sample_blocked (fst (get_new_issues (fun _ => hour) ∅ [sample_blocked])).
Proof.
  apply (blocked_issue_retried (fun _ => hour) ∅ [sample_blocked] 0 sample_blocked
           {| labels := {[ "bug"%string ]}; comments := [] |}
           "Error during processing: timeout" 0%Z).
  - simpl. apply NoDup_singleton.
  - reflexivity.
  - reflexivity.
  - simpl. set_solver.
  - simpl. set_solver.
  - set_solver.
  - reflexivity.
  - vm_compute. reflexivity.
Defined.

Lemma pending_prs_go_spec (clock : nat -> Z) (prs : list item) :
  forall k0,
  Forall (fun pr => exists j u, prs !! j = Some pr /\
            ("approved"%string ∉ labels (it_entity pr)) /\ it_time pr = Some u /\
            (clock (k0 + j)%nat - u < hour)%Z)
         (pending_prs_go clock k0 prs).
Proof.
  induction prs as [|pr rest IH]; intros k0; simpl; [constructor|].
  assert (Hr : Forall (fun x => exists j u, (pr :: rest) !! j = Some x /\
            ("approved"%string ∉ labels (it_entity x)) /\ it_time x = Some u /\
            (clock (k0 + j)%nat - u < hour)%Z) (pending_prs_go clock (S k0) rest)).
  { eapply Forall_impl; [exact (IH (S k0))|]. intros x (j & u & ? & ? & ? & ?).
    exists (S j), u. rewrite Nat.add_succ_r. auto. }
  destruct (bool_decide ("approved"%string ∈ labels (it_entity pr))) eqn:Ha; [exact Hr|].
  apply bool_decide_eq_false in Ha.
  destruct (it_time pr) as [u|] eqn:Hu; [|exact Hr].
  destruct (clock k0 - u <? hour)%Z eqn:Hc; [|exact Hr].
  constructor; [|exact Hr]. exists 0, u. rewrite Nat.add_0_r.
  apply Z.ltb_lt in Hc. auto.
Qed.

(** [_get_pending_prs] returns pull requests of the fetched list that do
    not carry the [approved] label and were updated less than an hour
    before the clock reading taken for them. *)
Theorem pending_prs_selection (clock : nat -> Z) (prs : list item) :
  Forall (fun pr => exists j u, prs !! j = Some pr /\
            ("approved"%string ∉ labels (it_entity pr)) /\ it_time pr = Some u /\
            (clock j - u < hour)%Z)
         (get_pending_prs clock prs).
Proof. exact (pending_prs_go_spec clock prs 0). Qed.

(** A pull request that [_post_review_feedback] labels [approved] is not
    queued for review again by [_get_pending_prs]. *)
Theorem approved_pr_not_requeued (clock : nat -> Z) (prs : list item) (pr : item)
  (e : entity) (j : Interp.json) (report : string) :
  ReviewFlow.review_label j = "approved"%string ->
  it_entity pr = post_review_feedback e (Review.rr_status (ReviewFlow.view j))
                   (Review.rr_meets_requirements (ReviewFlow.view j)) report ->
  ~ In pr (get_pending_prs clock prs).
Proof.
  intros Hl He Hin. pose proof (pending_prs_go_spec clock prs 0) as H.
  rewrite List.Forall_forall in H. destruct (H pr Hin) as (k & u & _ & Ha & _).
  apply Ha. rewrite He. unfold post_review_feedback. cbn [labels].
  unfold ReviewFlow.review_label in Hl. rewrite Hl. set_solver.
Qed.

Definition sample_pr : item :=
  {| it_number := 9;
     it_entity := post_review_feedback {| labels := ∅; comments := [] |}
                    (Review.rr_status (ReviewFlow.view
                       (Interp.perform_llm_review Interp.sample_loads
                          (Interp.Generated ReviewFlowProofs.approving_answer))))
                    (Review.rr_meets_requirements (ReviewFlow.view
                       (Interp.perform_llm_review Interp.sample_loads
                          (Interp.Generated ReviewFlowProofs.approving_answer))))
                    "review";
     it_time := Some 0%Z |}.

Lemma approved_pr_not_requeued_witness :
  ~ In sample_pr (get_pending_prs (fun _ => 0%Z) [sample_pr]).
Proof.
  apply (approved_pr_not_requeued (fun _ => 0%Z) [sample_pr] sample_pr
           {| labels := ∅; comments := [] |}
           (Interp.perform_llm_review Interp.sample_loads
              (Interp.Generated ReviewFlowProofs.approving_answer))
           "review").
  - vm_compute. reflexivity.
  - reflexivity.
Defined.

End IntakeProofs.

Module CIStatusProofs.
Import CI.

Lemma string_app_empty (a b : string) :
  (a ++ b)%string = EmptyString -> b = EmptyString.
Proof. destruct a; simpl; [auto | discriminate]. Qed.

Lemma fold_step_inv (l : list commit_status) (r : ci_result) :
  (success r = true <-> details r = EmptyString) ->
  jobs (fold_left step l r) = jobs r ++ l /\
  (success (fold_left step l r) = true <-> details (fold_left step l r) = EmptyString).
Proof.
  revert r; induction l as [|st l IH]; intros r Hr; simpl.
  - rewrite app_nil_r. auto.
  - destruct (IH (step r st)) as [Hj Hs].
    + unfold step. destruct (String.eqb (st_state st) "success"); simpl; [exact Hr|].
      split; [discriminate|]. intros H.
      repeat apply string_app_empty in H. discriminate.
    + split; [|exact Hs]. rewrite Hj. unfold step.
      destruct (String.eqb (st_state st) "success"); simpl;
        rewrite <- app_assoc; reflexivity.
Qed.

(** [get_ci_status] lists as [jobs] exactly the status entries of the
    latest commit, in order (none when there is no commit), and reports
    [success] exactly when its [details] text is empty: every failing
    entry adds a line to [details], and no commit gives
    ["No commits found"]. *)
Theorem ci_status_jobs_details (commits : list commit) :
  jobs (get_ci_status commits) = from_option id [] (last commits) /\
  (success (get_ci_status commits) = true <->
   details (get_ci_status commits) = EmptyString).
Proof.
  unfold get_ci_status, last_commit.
  destruct (last commits) as [latest|]; simpl.
  - destruct (fold_step_inv latest
                {| success := true; jobs := []; details := EmptyString |})
      as [Hj Hs]; [simpl; tauto|].
    split; [exact Hj|exact Hs].
  - split; [reflexivity|]. split; discriminate.
Qed.

End CIStatusProofs.

Module CycleCountProofs.
Import Cycle.

(** An issue whose [process_issue] call returned a truthy pull request
    number. *)
Definition succeeded (it : issue_item) : bool :=
  match issue_outcome it with
  | Returned (Some pr) => negb (Nat.eqb pr 0)
  | _ => false
  end.

Definition reviewed (it : pr_item) : bool :=
  match review_outcome it with Returned _ => true | Raised _ => false end.

Lemma issue_fold_counts (l : list issue_item) (r : results) (st : state) :
  issues_processed (fst (fold_left issue_step l (r, st))) =
    issues_processed r + length (List.filter succeeded l) /\
  prs_reviewed (fst (fold_left issue_step l (r, st))) = prs_reviewed r /\
  processed_issues (snd (fold_left issue_step l (r, st))) =
    list_to_set (map issue_number (List.filter succeeded l)) ∪ processed_issues st.
Proof.
  revert r st; induction l as [|it l IH]; intros r st; simpl.
  - split; [lia|]. split; [reflexivity|]. set_solver.
  - destruct (issue_step (r, st) it) as [r' st'] eqn:Hs.
    destruct (IH r' st') as (H1 & H2 & H3).
    unfold issue_step in Hs.
    change (succeeded it) with
      (match issue_outcome it with
       | Returned (Some pr) => negb (Nat.eqb pr 0) | _ => false end).
    destruct (issue_outcome it) as [[n|]|m].
    + destruct (Nat.eqb n 0); injection Hs as <- <-; simpl in *.
      * rewrite H1, H2, H3. split; [lia|]. split; [reflexivity|]. set_solver.
      * rewrite H1, H2, H3. split; [lia|]. split; [reflexivity|]. set_solver.
    + injection Hs as <- <-; simpl in *. rewrite H1, H2, H3. auto.
    + injection Hs as <- <-; simpl in *. rewrite H1, H2, H3. auto.
Qed.

Lemma pr_fold_counts (l : list pr_item) (r : results) (st : state) :
  issues_processed (fst (fold_left pr_step l (r, st))) = issues_processed r /\
  prs_reviewed (fst (fold_left pr_step l (r, st))) =
    prs_reviewed r + length (List.filter reviewed l) /\
  processed_issues (snd (fold_left pr_step l (r, st))) = processed_issues st.
Proof.
  revert r st; induction l as [|it l IH]; intros r st; simpl.
  - split; [reflexivity|]. split; [lia|reflexivity].
  - destruct (pr_step (r, st) it) as [r' st'] eqn:Hs.
    destruct (IH r' st') as (H1 & H2 & H3).
    unfold pr_step in Hs.
    change (reviewed it) with
      (match review_outcome it with Returned _ => true | Raised _ => false end).
    destruct (review_outcome it); injection Hs as <- <-; simpl in *;
      rewrite H1, H2, H3; (split; [reflexivity|]); (split; [lia|reflexivity]).
Qed.

(** Once [_get_new_issues] has returned, [process_pending_issues] counts
    in [issues_processed] exactly the issues whose [process_issue] call
    returned a truthy pull request number, adds exactly their numbers to
    [processed_issues], and counts in [prs_reviewed] the pull requests
    whose review returned (none when [_get_pending_prs] raised). *)
Theorem cycle_counts (st : state) (issues : list issue_item)
  (pending_prs : outcome (list pr_item)) :
  let res := process_pending_issues st (Returned issues) pending_prs in
  issues_processed (fst res) = length (List.filter succeeded issues) /\
  prs_reviewed (fst res) =
    match pending_prs with
    | Returned prs => length (List.filter reviewed prs)
    | Raised _ => 0
    end /\
  processed_issues (snd res) =
    list_to_set (map issue_number (List.filter succeeded issues)) ∪ processed_issues st.
Proof.
  cbv zeta. unfold process_pending_issues.
  pose proof (issue_fold_counts issues
                {| issues_processed := 0; prs_reviewed := 0; errors := [] |} st)
    as (H1 & H2 & H3).
  destruct (fold_left issue_step issues _) as [r1 st1]. simpl in H1, H2, H3.
  destruct pending_prs as [prs|m]; simpl.
  - destruct (pr_fold_counts prs r1 st1) as (G1 & G2 & G3).
    rewrite G1, G2, G3, H1, H2, H3. auto.
  - rewrite H1, H2, H3. auto.
Qed.

End CycleCountProofs.

Module FeedbackWriteProofs.
Import Feedback.

Definition reads (evs : list event) : list string :=
  flat_map (fun e => match e with ReadFile p => [p] | _ => [] end) evs.

(** A call of [handle_review_feedback] writes a file only when it
    proceeds (the iteration cap is not exceeded), the file is one of the
    pull request's changed files, its content on the head ref is
    non-empty, and the model's revision of it differs from that content;
    the written content is that revision. *)
Theorem feedback_writes_justified (E : env) (a : agent) (pr : nat) (fb path c : string) :
  In (WriteFile path c) (snd (handle_review_feedback E a pr fb)) ->
  fst (fst (handle_review_feedback E a pr fb)) = true /\
  In path (changed_files E pr) /\
  exists cur, file_content E pr path = Some cur /\ cur <> EmptyString /\
              apply_feedback E path cur fb = Some c /\ c <> cur.
Proof.
  unfold handle_review_feedback.
  destruct (max_iterations E <? S (iteration_count a)); simpl.
  - intros [H|[]]. discriminate.
  - intros [H|H]; [discriminate|]. split; [reflexivity|].
    unfold revise_files in H. apply in_flat_map in H as [p [Hp H]].
    unfold revise_file in H. destruct H as [H|H]; [discriminate|].
    destruct (file_content E pr p) as [cur|] eqn:Hc; [|destruct H].
    destruct (String.eqb cur EmptyString) eqn:He; [destruct H|].
    destruct (apply_feedback E p cur fb) as [nc|] eqn:Ha; [|destruct H].
    destruct (String.eqb nc cur) eqn:Hn; [destruct H|].
    destruct H as [H|[]]. injection H as -> ->.
    split; [exact Hp|]. exists cur.
    apply String.eqb_neq in He, Hn. auto.
Qed.

Lemma feedback_writes_justified_witness :
  fst (fst (handle_review_feedback FeedbackProofs.sample_env fresh_agent 7
              "rename x"%string)) = true /\
  In "app.py"%string (changed_files FeedbackProofs.sample_env 7).
Proof.
  destruct (feedback_writes_justified FeedbackProofs.sample_env fresh_agent 7
              "rename x" "app.py" "x = 2")%string as (H1 & H2 & _).
  - vm_compute. auto.
  - split; [exact H1|exact H2].
Defined.

Lemma revise_file_reads (E : env) (pr : nat) (fb p : string) :
  reads (revise_file E pr fb p) = [p].
Proof.
  unfold revise_file. simpl.
  destruct (file_content E pr p) as [cur|]; [|reflexivity].
  destruct (String.eqb cur EmptyString); [reflexivity|].
  destruct (apply_feedback E p cur fb) as [nc|]; [|reflexivity].
  destruct (String.eqb nc cur); reflexivity.
Qed.

(** A call of [handle_review_feedback] that proceeds reads every changed
    file of the pull request once, in the order [get_files] lists them;
    a refused call reads nothing. *)
Theorem feedback_reads_changed_files (E : env) (a : agent) (pr : nat) (fb : string) :
  reads (snd (handle_review_feedback E a pr fb)) =
  if max_iterations E <? S (iteration_count a) then [] else changed_files E pr.
Proof.
  unfold handle_review_feedback.
  destruct (max_iterations E <? S (iteration_count a)); [reflexivity|].
  change (reads (revise_files E pr fb) = changed_files E pr).
  unfold revise_files. induction (changed_files E pr) as [|p l IH]; [reflexivity|].
  cbn [flat_map]. unfold reads. rewrite flat_map_app. fold (reads (revise_file E pr fb p)).
  fold (reads (flat_map (revise_file E pr fb) l)).
  rewrite revise_file_reads, IH. reflexivity.
Qed.

End FeedbackWriteProofs.

Module DiscoverBoundProofs.
Import Str Discover.

(** For every requirement and repository tree, [_discover_relevant_files]
    returns at most 50 paths, taken from the tree in tree order, each
    matching one of the derived patterns and containing none of the
    excluded directory names. *)
Theorem discover_bounds (requirement : list ascii) (tree : option (list (list ascii))) :
  let r := discover_relevant_files requirement tree in
  length r <= 50 /\ (r `sublist_of` from_option id [] tree) /\
  Forall (fun p => existsb (fun pat => pattern_matches pat p)
                           (determine_file_patterns requirement) = true /\
                   Forall (fun d => contains p d = false) excluded_dirs) r.
Proof.
  cbv zeta. unfold discover_relevant_files.
  destruct tree as [[|x items]|];
    [simpl; split; [lia|split; [constructor|constructor]]| |
     simpl; split; [lia|split; [constructor|constructor]]].
  cbv iota.
  change (from_option id [] (Some (x :: items))) with (x :: items).
  split; [apply firstn_le_length|]. split.
  - etrans; [apply sublist_take|apply DiscoverProofs.filter_sublist].
  - apply Forall_forall. intros p Hp.
    assert (Hk : keep (determine_file_patterns requirement) p = true).
    { apply (DiscoverProofs.elem_of_filter_true _ (x :: items)).
      apply (elem_of_sublist _ _ _ Hp). apply sublist_take. }
    unfold keep in Hk. apply andb_prop in Hk as [H1 H2]. split; [exact H1|].
    apply negb_true_iff in H2. apply Forall_forall. intros d Hd.
    destruct (contains p d) eqn:Hc; [|reflexivity].
    exfalso. assert (existsb (contains p) excluded_dirs = true) as Hx.
    { apply existsb_exists. exists d. split; [apply list_elem_of_In; exact Hd|exact Hc]. }
    congruence.
Qed.

End DiscoverBoundProofs.
